(** * pyscp crawler: the page model of [crawler.py]

    A shallow embedding of the [Page] class of [crawler.py] (content
    transformation, metadata extraction, overrides and [children]) together
    with the parts of its collaborators the class relies on:

    - Python strings, exceptions and the few string operations used;
    - the BeautifulSoup document tree, as a forest of nodes carrying object
      identities, with the operations of bs4 4.3 the crawler calls
      ([select], [decompose], [insert], [replace_with], [wrap], ...);
    - the [Snapshot] accessors ([pagedata], [rewrite], [images], [title]).

    Markup is stored parsed: a page record holds the tree the HTML parser
    yields for it.  Serialisation ([str(tag)]), [int(...)] and the [arrow]
    time conversion are taken as parameters ([External]). *)

From Stdlib Require Import ZArith Lia Ascii DecimalString.
From stdpp Require Import base strings list gmap option sorting.

Open Scope string_scope.

(* ===================================================================== *)
(** ** Python: exceptions, results, strings *)
(* ===================================================================== *)

Module Py.

Inductive exn :=
| IndexError | KeyError | AttributeError | TypeError | ValueError
| DBPage_DoesNotExist | DBTitle_DoesNotExist
| OutOfFuel.

Global Instance exn_eq_dec : EqDecision exn.
Proof. solve_decision. Defined.

Inductive result (A : Type) :=
| Ok (a : A)
| Raise (e : exn).
Global Arguments Ok {A} a.
Global Arguments Raise {A} e.

Definition bind {A B} (m : result A) (f : A → result B) : result B :=
  match m with
  | Ok a => f a
  | Raise e => Raise e
  end.

Global Instance result_ret : MRet result := @Ok.
Global Instance result_bind : MBind result := λ A B f m, bind m f.
Global Instance result_fmap : FMap result := λ A B f m,
  match m with Ok a => Ok (f a) | Raise e => Raise e end.

Definition is_ok {A} (m : result A) : bool :=
  match m with Ok _ => true | Raise _ => false end.

(** [for x in l: st = body(st, x)], stopping at the first exception. *)
Fixpoint for_each {S X} (body : S → X → result S) (l : list X) (st : S)
  : result S :=
  match l with
  | [] => Ok st
  | x :: l' => bind (body st x) (for_each body l')
  end.

(** [l[0]] *)
Definition first_item {A} (l : list A) : result A :=
  match l with
  | x :: _ => Ok x
  | [] => Raise IndexError
  end.

(** [l[n]] for a non-negative index *)
Definition item {A} (l : list A) (n : nat) : result A :=
  match l !! n with
  | Some x => Ok x
  | None => Raise IndexError
  end.

(** [any(f(x) for x in l)]: evaluates left to right, stops at the first
    true value, and lets an exception raised on the way through. *)
Fixpoint any_gen {A} (f : A → result bool) (l : list A) : result bool :=
  match l with
  | [] => Ok false
  | x :: l' => bind (f x) (λ b, if b then Ok true else any_gen f l')
  end.

(** [[x for x in l if f(x)]] with a condition that may raise *)
Fixpoint filter_gen {A} (f : A → result bool) (l : list A)
  : result (list A) :=
  match l with
  | [] => Ok []
  | x :: l' =>
      bind (f x) (λ b,
      bind (filter_gen f l') (λ r, Ok (if b then x :: r else r)))
  end.

(** [[f(x) for x in l]] with a body that may raise *)
Fixpoint map_gen {A B} (f : A → result B) (l : list A) : result (list B) :=
  match l with
  | [] => Ok []
  | x :: l' => bind (f x) (λ y, bind (map_gen f l') (λ r, Ok (y :: r)))
  end.

(** *** strings *)

Definition is_digit (c : ascii) : bool :=
  let n := nat_of_ascii c in (48 <=? n)%nat && (n <=? 57)%nat.

(** A [str] is held as the bytes of its UTF-8 form.  The white space
    that [str.strip()] removes: of one byte, U+0009 to U+000D, U+001C to
    U+001F and the blank; *)
Definition is_space1 (c : ascii) : bool :=
  let n := nat_of_ascii c in
  ((9 <=? n)%nat && (n <=? 13)%nat) || (28 <=? n)%nat && (n <=? 32)%nat.
(** of two bytes, U+0085 and U+00A0; *)
Definition is_space2 (a b : ascii) : bool :=
  let '(x, y) := (nat_of_ascii a, nat_of_ascii b) in
  (x =? 194)%nat && ((y =? 133)%nat || (y =? 160)%nat).
(** of three bytes, U+1680, U+2000 to U+200A, U+2028, U+2029, U+202F,
    U+205F and U+3000. *)
Definition is_space3 (a b c : ascii) : bool :=
  let '(x, y, z) := (nat_of_ascii a, nat_of_ascii b, nat_of_ascii c) in
  (x =? 225)%nat && (y =? 154)%nat && (z =? 128)%nat
  || (x =? 226)%nat && (y =? 128)%nat
     && ((128 <=? z)%nat && (z <=? 138)%nat
         || (z =? 168)%nat || (z =? 169)%nat || (z =? 175)%nat)
  || (x =? 226)%nat && (y =? 129)%nat && (z =? 159)%nat
  || (x =? 227)%nat && (y =? 128)%nat && (z =? 128)%nat.

(** [s.lstrip()] *)
Fixpoint lstrip_space (s : string) : string :=
  match s with
  | String a s1 =>
      if is_space1 a then lstrip_space s1 else
      match s1 with
      | String b s2 =>
          if is_space2 a b then lstrip_space s2 else
          match s2 with
          | String c s3 => if is_space3 a b c then lstrip_space s3 else s
          | EmptyString => s
          end
      | EmptyString => s
      end
  | EmptyString => EmptyString
  end.

(** [s.rstrip()], on the bytes from the last to the first *)
Fixpoint rstrip_space_rev (r : list ascii) : list ascii :=
  match r with
  | c :: r1 =>
      if is_space1 c then rstrip_space_rev r1 else
      match r1 with
      | b :: r2 =>
          if is_space2 b c then rstrip_space_rev r2 else
          match r2 with
          | a :: r3 => if is_space3 a b c then rstrip_space_rev r3 else r
          | [] => r
          end
      | [] => r
      end
  | [] => []
  end.

(** [s.strip()] *)
Definition strip_space (s : string) : string :=
  String.string_of_list_ascii
    (rev (rstrip_space_rev (rev (String.list_ascii_of_string (lstrip_space s))))).

Fixpoint lstrip (p : ascii → bool) (s : string) : string :=
  match s with
  | String c s' => if p c then lstrip p s' else s
  | EmptyString => EmptyString
  end.

Fixpoint rstrip (p : ascii → bool) (s : string) : string :=
  match s with
  | EmptyString => EmptyString
  | String c s' =>
      match rstrip p s' with
      | EmptyString => if p c then EmptyString else String c EmptyString
      | r => String c r
      end
  end.

(** [s.strip('.')], [s.rstrip('|')]: the characters to remove are of one
    byte. *)
Definition strip (p : ascii → bool) (s : string) : string :=
  rstrip p (lstrip p s).
Definition is_char (c : ascii) : ascii → bool := λ a, bool_decide (a = c).

(** [s.split(sep)] for a one-character separator *)
Fixpoint split (sep : ascii) (s : string) : list string :=
  match s with
  | EmptyString => [EmptyString]
  | String c s' =>
      if decide (c = sep) then EmptyString :: split sep s'
      else match split sep s' with
           | w :: ws => String c w :: ws
           | [] => [String c EmptyString]
           end
  end.

(** [l[-n:]] *)
Definition last_items {A} (n : nat) (l : list A) : list A :=
  drop (length l - n) l.

(** [s[-n:]] *)
Fixpoint string_drop (n : nat) (s : string) : string :=
  match n, s with
  | S n', String _ s' => string_drop n' s'
  | _, _ => s
  end.
Definition last_chars (n : nat) (s : string) : string :=
  string_drop (String.length s - n) s.

(** [sub in s] for strings *)
Fixpoint is_substring (sub s : string) : bool :=
  String.prefix sub s ||
  match s with
  | EmptyString => false
  | String _ s' => is_substring sub s'
  end.

(** [re.search('[0-9]+', s)]: the leftmost maximal run of digits. *)
Fixpoint take_digits (s : string) : string :=
  match s with
  | String c s' => if is_digit c then String c (take_digits s') else EmptyString
  | EmptyString => EmptyString
  end.
Fixpoint search_digits (s : string) : option string :=
  match s with
  | EmptyString => None
  | String c s' => if is_digit c then Some (take_digits s) else search_digits s'
  end.

(** The position at which [$] anchors: the end of the string, or just
    before a newline that ends it.  Results are on the reversed text. *)
Definition newline : ascii := ascii_of_nat 10.
Definition rev_string (s : string) : list ascii := rev (String.list_ascii_of_string s).
Definition dollar_ends (s : string) : list (list ascii) :=
  let r := rev_string s in
  match r with
  | c :: r' => if decide (c = newline) then [r; r'] else [r]
  | [] => [r]
  end.
Fixpoint span_digits (r : list ascii) : list ascii * list ascii :=
  match r with
  | c :: r' => if is_digit c
               then let '(d, rest) := span_digits r' in (c :: d, rest)
               else ([], r)
  | [] => ([], [])
  end.

(** [re.search('[0-9]+$', s)], giving [group(0)] *)
Definition search_digits_end (s : string) : option string :=
  head (omap (λ r, match span_digits r with
                   | ([], _) => None
                   | (d, _) => Some (String.string_of_list_ascii (rev d))
                   end) (dollar_ends s)).

(** [re.search('[scp]+-[0-9]+$', s)], as a truth value *)
Definition is_scp (c : ascii) : bool :=
  bool_decide (c = "s"%char) || bool_decide (c = "c"%char)
  || bool_decide (c = "p"%char).
Definition search_scp_number (s : string) : bool :=
  existsb (λ r, match span_digits r with
                | (_ :: _, dash :: c :: _) =>
                    bool_decide (dash = "-"%char) && is_scp c
                | _ => false
                end) (dollar_ends s).

(** ['{}'.format(n)] for a natural number *)
Definition str_of_nat (n : nat) : string :=
  NilZero.string_of_uint (Nat.to_uint n).

(** Python values of the two types the [comments] attribute takes. *)
Inductive value :=
| VStr (s : string)
| VInt (z : Z).

End Py.

Import Py.

(* ===================================================================== *)
(** ** BeautifulSoup: the document tree *)
(* ===================================================================== *)

Module Bs4.

(** An attribute value is a string, or a list of strings for the
    multi-valued [class] attribute as the tree builder delivers it, for
    parsed markup and for a tag made by [new_tag] alike.  A value the
    crawler assigns to a tag ([i["class"] = "link"],
    [k.attrs = {"class": "tabview-tab"}]) stays a plain string. *)
Inductive aval :=
| AStr (s : string)
| AList (l : list string).

Global Instance aval_eq_dec : EqDecision aval.
Proof. solve_decision. Defined.

(** [tag.attrs]: the [class] entry, and the string-valued entries
    ([id], [href], [src], [style], ...). *)
Record attrs := Attrs { a_class : option aval; a_other : gmap string string }.

Global Instance attrs_eq_dec : EqDecision attrs.
Proof. solve_decision. Defined.

Definition no_attrs : attrs := Attrs None ∅.
Definition class_attr (v : aval) : attrs := Attrs (Some v) ∅.

(** The attributes of [soup.new_tag(name, **{"class": c})]: the tree
    builder splits the value of [class] at white space into the list of
    its names; [c] is a name without white space. *)
Definition new_class (c : string) : attrs := class_attr (AList [c]).

(** A [NavigableString], or a [Tag] with its object identity. *)
#[warnings="-register-all"]
Inductive node :=
| Text (s : string)
| Elem (id : nat) (name : string) (a : attrs) (contents : list node).

Definition nid (n : node) : option nat :=
  match n with Elem i _ _ _ => Some i | Text _ => None end.
Definition is_id (i : nat) (n : node) : bool :=
  match n with Elem j _ _ _ => bool_decide (i = j) | Text _ => false end.
Definition is_tag (n : node) : bool :=
  match n with Elem _ _ _ _ => true | Text _ => false end.
Definition name (n : node) : option string :=
  match n with Elem _ nm _ _ => Some nm | Text _ => None end.
Definition attrs_of (n : node) : attrs :=
  match n with Elem _ _ a _ => a | Text _ => no_attrs end.
Definition contents (n : node) : list node :=
  match n with Elem _ _ _ ks => ks | Text _ => [] end.
Definition ids (l : list node) : list nat := omap nid l.

Definition set_contents (ks : list node) (n : node) : node :=
  match n with Elem i nm a _ => Elem i nm a ks | Text _ => n end.
Definition map_attrs (f : attrs → attrs) (n : node) : node :=
  match n with Elem i nm a ks => Elem i nm (f a) ks | Text _ => n end.
Definition set_name (nm : string) (n : node) : node :=
  match n with Elem i _ a ks => Elem i nm a ks | Text _ => n end.

(** [tag.get(key)], [tag.has_attr(key)], [tag[key] = v], [del tag[key]] *)
Definition get_str (key : string) (n : node) : option string :=
  a_other (attrs_of n) !! key.
Definition has_attr (key : string) (n : node) : bool :=
  bool_decide (is_Some (get_str key n)).
Definition set_str (key v : string) (a : attrs) : attrs :=
  Attrs (a_class a) (<[key := v]> (a_other a)).
Definition del_str (key : string) (a : attrs) : attrs :=
  Attrs (a_class a) (delete key (a_other a)).
Definition set_class (v : string) (a : attrs) : attrs :=
  Attrs (Some (AStr v)) (a_other a).

(** [tag.descendants]: document order, the tag itself excluded. *)
Fixpoint descendants (n : node) : list node :=
  match n with
  | Text _ => []
  | Elem _ _ _ ks => flat_map (λ k, k :: descendants k) ks
  end.

Definition first_some {A} (l : list (option A)) : option A :=
  head (omap id l).

(** The object with identity [i] inside [n]. *)
Fixpoint find (i : nat) (n : node) : option node :=
  match n with
  | Text _ => None
  | Elem j _ _ ks =>
      if decide (i = j) then Some n else first_some (map (find i) ks)
  end.

(** In-place change of the object [i]: of whatever carries that
    identity (in a soup, one tag). *)
Fixpoint update (i : nat) (f : node → node) (n : node) : node :=
  match n with
  | Text _ => n
  | Elem j nm a ks =>
      let n' := Elem j nm a (map (update i f) ks) in
      if decide (i = j) then f n' else n'
  end.

(** Removal of the object [i] from the [contents] that hold it. *)
Fixpoint remove (i : nat) (n : node) : node :=
  match n with
  | Text _ => n
  | Elem j nm a ks =>
      Elem j nm a (flat_map (λ k, if is_id i k then [] else [remove i k]) ks)
  end.

(** Position of the object [i] in a [contents] list ([parent.index]). *)
Fixpoint index_of (i : nat) (ks : list node) : option nat :=
  match ks with
  | [] => None
  | k :: ks' => if is_id i k then Some 0 else S <$> index_of i ks'
  end.

(** The parent of [i] and the position of [i] in its [contents]. *)
Fixpoint parent_in (i : nat) (n : node) : option (nat * nat) :=
  match n with
  | Text _ => None
  | Elem j _ _ ks =>
      match index_of i ks with
      | Some idx => Some (j, idx)
      | None => first_some (map (parent_in i) ks)
      end
  end.

(** [tag.parents] of [i] within [n]: nearest first. *)
Fixpoint path_to (i : nat) (n : node) : option (list nat) :=
  match n with
  | Text _ => None
  | Elem j _ _ ks =>
      if decide (i = j) then Some []
      else (λ p, (p ++ [j])%list) <$> first_some (map (path_to i) ks)
  end.

(** [tag.text]: all strings below the tag, concatenated. *)
Fixpoint text (n : node) : string :=
  match n with
  | Text s => s
  | Elem _ _ _ ks => foldr (λ k acc, text k +:+ acc) "" ks
  end.

(** [tag.strings] *)
Definition strings (n : node) : list string :=
  omap (λ d, match d with Text s => Some s | _ => None end) (descendants n).

(** [tag.string]: the single string below the tag, if there is one. *)
Fixpoint string_of (n : node) : option string :=
  match n with
  | Text s => Some s
  | Elem _ _ _ ks =>
      match ks with
      | [k] => string_of k
      | _ => None
      end
  end.

(** [tag.a], [tag.div]: the first descendant tag of that name. *)
Definition first_tag (nm : string) (n : node) : option node :=
  head (List.filter (λ d, bool_decide (name d = Some nm)) (descendants n)).

(** [Tag.__eq__]: same name, same attributes, equal contents; the
    identities play no part. *)
Fixpoint node_eqb (x y : node) : bool :=
  match x, y with
  | Text s, Text t => bool_decide (s = t)
  | Elem _ n1 a1 k1, Elem _ n2 a2 k2 =>
      bool_decide (n1 = n2) && bool_decide (a1 = a2) &&
      (fix all2 (l1 l2 : list node) : bool :=
         match l1, l2 with
         | [], [] => true
         | u :: l1', v :: l2' => node_eqb u v && all2 l1' l2'
         | _, _ => false
         end) k1 k2
  | _, _ => false
  end.

(** *** CSS selection, as [Tag.select] of bs4 4.3 runs it *)

(** One token: an optional tag name, an optional [#id], an optional
    [.class]. *)
Record simple := Simple {
  s_name : option string; s_id : option string; s_class : option string }.

Inductive token :=
| Desc (s : simple)     (** [... tok]: among the descendants *)
| Child (s : simple).   (** [... > tok]: among the children *)

(** [classes.issubset(candidate.get('class', []))] for one class. *)
Definition class_matches (c : string) (v : option aval) : bool :=
  match v with
  | None => false
  | Some (AList l) => bool_decide (c ∈ l)
  | Some (AStr s) =>
      match c with
      | String ch EmptyString =>
          bool_decide (ch ∈ String.list_ascii_of_string s)
      | _ => false
      end
  end.

Definition matches (s : simple) (n : node) : bool :=
  match n with
  | Text _ => false
  | Elem _ nm a _ =>
      from_option (λ t, bool_decide (nm = t)) true (s_name s)
      && from_option (λ i, bool_decide (a_other a !! "id" = Some i)) true (s_id s)
      && from_option (λ c, class_matches c (a_class a)) true (s_class s)
  end.

(** A tag enters a context once ([new_context_ids]). *)
Fixpoint dedup_ids (seen : list nat) (l : list node) : list node :=
  match l with
  | [] => []
  | n :: l' =>
      match nid n with
      | Some i => if bool_decide (i ∈ seen) then dedup_ids seen l'
                  else n :: dedup_ids (i :: seen) l'
      | None => dedup_ids seen l'
      end
  end.

Definition select_step (ctx : list node) (t : token) : list node :=
  match t with
  | Desc s => dedup_ids [] (flat_map (λ c, List.filter (matches s) (descendants c)) ctx)
  | Child s => dedup_ids [] (flat_map (λ c, List.filter (matches s) (contents c)) ctx)
  end.

Definition select (sel : list token) (n : node) : list node :=
  fold_left select_step sel [n].

Definition tag_ (nm : string) : simple := Simple (Some nm) None None.
Definition tag_class (nm c : string) : simple := Simple (Some nm) None (Some c).
Definition hash_id (i : string) : simple := Simple None (Some i) None.

(** *** The soup: every object alive, and the next fresh identity *)

(** The roots are the document and the trees detached from it
    ([extract]ed, or created and not yet inserted).  A [decompose]d
    object is in no tree. *)
Record soup := Soup { roots : list node; fresh : nat }.

Definition lookup (S : soup) (i : nat) : option node :=
  first_some (map (find i) (roots S)).

Definition alive (S : soup) (i : nat) : bool := bool_decide (is_Some (lookup S i)).

Definition modify (i : nat) (f : node → node) (S : soup) : soup :=
  Soup (map (update i f) (roots S)) (fresh S).

(** [tag.select(sel)]; a destroyed tag has no contents left. *)
Definition select_in (S : soup) (i : nat) (sel : list token) : list node :=
  from_option (select sel) [] (lookup S i).

(** [tag.decompose()] *)
Definition decompose (S : soup) (i : nat) : soup :=
  Soup (flat_map (λ k, if is_id i k then [] else [remove i k]) (roots S))
       (fresh S).

(** [tag.extract()]: the tag leaves its parent and stays alive. *)
Definition extract (S : soup) (i : nat) : soup :=
  match lookup S i with
  | Some n => Soup (roots (decompose S i) ++ [n])%list (fresh S)
  | None => S
  end.

(** [soup.new_tag(name, **attrs)] *)
Definition new_tag (S : soup) (nm : string) (a : attrs) : soup * nat :=
  (Soup (roots S ++ [Elem (fresh S) nm a []])%list (Datatypes.S (fresh S)), fresh S).

Definition parent_of (S : soup) (i : nat) : option (nat * nat) :=
  first_some (map (parent_in i) (roots S)).

(** [tag.parents], as identities, nearest first. *)
Definition parents (S : soup) (i : nat) : list nat :=
  default [] (first_some (map (path_to i) (roots S))).

Definition insert_at {A} (pos : nat) (x : A) (l : list A) : list A :=
  (take pos l ++ x :: drop pos l)%list.

(** [parent.insert(position, child)]: the child is taken from where it
    is; a move within the same parent shifts the position. *)
Definition insert (S : soup) (p pos c : nat) : soup :=
  match lookup S c, lookup S p with
  | Some cn, Some pn =>
      let pos0 := pos `min` length (contents pn) in
      let pos1 := match index_of c (contents pn) with
                  | Some ci => if (ci <? pos0)%nat then pos0 - 1 else pos0
                  | None => pos0
                  end in
      modify p (λ n, set_contents (insert_at pos1 cn (contents n)) n)
             (decompose S c)
  | _, _ => S
  end.

(** [parent.append(child)] *)
Definition append (S : soup) (p c : nat) : soup :=
  match lookup S p with
  | Some pn => insert S p (length (contents pn)) c
  | None => S
  end.

(** [tag.replace_with(other)] *)
Definition replace_with (S : soup) (i w : nat) : result soup :=
  if decide (i = w) then Ok S else
  match parent_of S i with
  | None => Raise ValueError
  | Some (p, my_index) =>
      if decide (w = p) then Raise ValueError
      else Ok (insert (extract S i) p my_index w)
  end.

(** [tag.wrap(wrapper)]; the wrapper is what the call returns. *)
Definition wrap (S : soup) (i w : nat) : result soup :=
  S1 ← replace_with S i w; Ok (append S1 w i).

(** [tag.insert_before(predecessor)] *)
Definition insert_before (S : soup) (i pred : nat) : result soup :=
  match parent_of S i with
  | None => Raise ValueError
  | Some (p, idx) =>
      if decide (i = pred) then Raise ValueError else Ok (insert S p idx pred)
  end.

(** [tag.string = s]: the contents are detached, the string appended. *)
Definition set_string (S : soup) (i : nat) (s : string) : soup :=
  match lookup S i with
  | Some n =>
      let S1 := modify i (set_contents [Text s]) S in
      Soup (roots S1 ++ List.filter is_tag (contents n))%list (fresh S1)
  | None => S
  end.

(** Largest identity in a tree, to start a soup from parsed markup. *)
Fixpoint max_id (n : node) : nat :=
  match n with
  | Text _ => 0
  | Elem i _ _ ks => foldr (λ k m, max_id k `max` m) i ks
  end.

(** [BeautifulSoup(markup)] *)
Definition make_soup (doc : node) : soup := Soup [doc] (S (max_id doc)).

End Bs4.

Import Bs4.

(* ===================================================================== *)
(** ** The snapshot database, read side *)
(* ===================================================================== *)

Module Snapshot.

(** A [DBPage] row, markup parsed. *)
Record PageData := mkPageData {
  html : node; history : option node; votes : option node }.

Record Image := mkImage { source : string; data : string }.
Record Rewrite := mkRewrite { author : string; override : bool }.
Record Title := mkTitle { t_url : string; skip : string; title_text : string }.

Record t := mk {
  DBPage : gmap string PageData;       (* url is unique *)
  DBImage : gmap string Image;         (* image_url is unique *)
  DBRewrite : gmap string Rewrite;     (* url is unique *)
  DBTitle : list Title }.

(** [Snapshot.pagedata] *)
Definition pagedata (sn : t) (url : string) : result PageData :=
  match DBPage sn !! url with
  | Some pd => Ok pd
  | None => Raise DBPage_DoesNotExist
  end.

(** [Snapshot.rewrite]: the row, or [False] *)
Definition rewrite (sn : t) (url : string) : option Rewrite :=
  DBRewrite sn !! url.

(** [Snapshot.images] *)
Definition images (sn : t) : gmap string Image := DBImage sn.

(** [Snapshot.title] *)
Definition title (sn : t) (url : string) : result string :=
  match List.find (λ r, bool_decide (t_url r = url)) (DBTitle sn) with
  | Some r => Ok (title_text r)
  | None =>
      match search_digits_end url with
      | None => Raise AttributeError
      | Some num =>
          match List.find (λ r, bool_decide (skip r = "SCP-" +:+ num))
                          (DBTitle sn) with
          | Some r => Ok (title_text r)
          | None => Raise DBTitle_DoesNotExist
          end
      end
  end.

End Snapshot.

(** What the crawler gets from outside Python's core and bs4's tree:
    [str(tag)] (of a tag that may have been destroyed), [int(text)], and
    [arrow.get(text, 'DD MMM YYYY HH:mm').format('YYYY-MM-DD HH:mm:ss')]. *)
Class External := {
  str_of_tag : option node → string;
  py_int : string → result Z;
  arrow_reformat : string → result string }.

(* ===================================================================== *)
(** ** Page: the parsing passes *)
(* ===================================================================== *)

Record Revision := mkRevision {
  number : Z; user : string; time : string; comment : string }.
Record VoteData := mkVoteData { v_user : string; vote : string }.

Inductive status := original | rewrite.
Record author := au { username : string; status_of : status }.

Global Instance status_eq_dec : EqDecision status.
Proof. solve_decision. Defined.
Global Instance author_eq_dec : EqDecision author.
Proof. solve_decision. Defined.

Definition site : string := "http://www.scp-wiki.net".

(** [_parse_tabviews]: one turn of [for k in tabs] *)
Definition py_eq (sp : soup) (i j : nat) : bool :=
  bool_decide (i = j) ||
  match lookup sp i, lookup sp j with
  | Some x, Some y => node_eqb x y
  | _, _ => false
  end.

(** [tabs.index(k)]: the first entry that is [k] or equals it *)
Fixpoint py_index (sp : soup) (tabs : list nat) (k : nat) : result nat :=
  match tabs with
  | [] => Raise ValueError
  | t :: tabs' => if py_eq sp t k then Ok 0%nat
                  else n ← py_index sp tabs' k; Ok (S n)
  end.

Definition tab_body (titles : list string) (tabs : list nat) (wraper : nat)
    (sp : soup) (k : nat) : result soup :=
  let sp := modify k (map_attrs (λ _, class_attr (AStr "tabview-tab"))) sp in
  let '(sp, tab_title) := new_tag sp "div" (new_class "tab-title") in
  idx ← py_index sp tabs k;
  t ← item titles idx;
  let sp := set_string sp tab_title t in
  let sp := insert sp k 0 tab_title in
  Ok (append sp wraper k).

(** The spec's pairing, to compare [tab_body] with: "titles are matched to
    tab blocks by position".  The turn for the block [k] at position [n]
    takes [titles[n]]; all else is as in [tab_body]. *)
Definition tab_body_by_position (titles : list string) (wraper : nat)
    (sp : soup) (nk : nat * nat) : result soup :=
  let '(n, k) := nk in
  let sp := modify k (map_attrs (λ _, class_attr (AStr "tabview-tab"))) sp in
  let '(sp, tab_title) := new_tag sp "div" (new_class "tab-title") in
  t ← item titles n;
  let sp := set_string sp tab_title t in
  let sp := insert sp k 0 tab_title in
  Ok (append sp wraper k).

(** [_parse_tabviews]: one turn of [for i in data.select("div.yui-navset")] *)
Definition tabview_body (sp : soup) (i : nat) : result soup :=
  let '(sp, wraper) := new_tag sp "div" (new_class "tabview") in
  let titles :=
    map text (select_in sp i [Desc (tag_class "ul" "yui-nav"); Desc (tag_ "em")]) in
  let tabs :=
    ids (select_in sp i [Desc (tag_class "div" "yui-content"); Child (tag_ "div")]) in
  sp ← for_each (tab_body titles tabs wraper) tabs sp;
  replace_with sp i wraper.

Definition _parse_tabviews (sp : soup) (data : nat) : result soup :=
  for_each tabview_body
           (ids (select_in sp data [Desc (tag_class "div" "yui-navset")])) sp.

(** [_parse_collapsibles] *)
Definition collapsible_body (sp : soup) (i : nat) : result soup :=
  link ← first_item (select_in sp i [Desc (tag_class "a" "collapsible-block-link")]);
  let link_text := text link in
  content ← first_item
    (select_in sp i [Desc (tag_class "div" "collapsible-block-content")]);
  '(sp, content) ←
    (if bool_decide (text content = "") then
       content ← first_item
         (select_in sp i [Desc (tag_class "div" "collapsible-block-unfolded")]);
       let c := default 0%nat (nid content) in
       let sp := modify c (map_attrs (del_str "style")) sp in
       inner ← first_item
         (select_in sp c [Desc (tag_class "div" "collapsible-block-content")]);
       let sp := decompose sp (default 0%nat (nid inner)) in
       ulink ← first_item
         (select_in sp c [Desc (tag_class "div" "collapsible-block-unfolded-link")]);
       let sp := decompose sp (default 0%nat (nid ulink)) in
       Ok (sp, c)
     else Ok (sp, default 0%nat (nid content)));
  let sp := modify content (map_attrs (set_class "collaps-content")) sp in
  let '(sp, col) := new_tag sp "div" (new_class "collapsible") in
  sp ← wrap sp content col;
  let '(sp, col_title) := new_tag sp "div" (new_class "collaps-title") in
  let sp := set_string sp col_title link_text in
  match lookup sp col ≫= first_tag "div" with
  | None => Raise AttributeError
  | Some d =>
      sp ← insert_before sp (default 0%nat (nid d)) col_title;
      replace_with sp i col
  end.

Definition _parse_collapsibles (sp : soup) (data : nat) : result soup :=
  for_each collapsible_body
           (ids (select_in sp data [Desc (tag_class "div" "collapsible-block")])) sp.

(** [_parse_links] *)
Definition _parse_links (sp : soup) (data : nat) : soup :=
  fold_left (λ sp i,
      let sp := modify i (map_attrs (del_str "href")) sp in
      let sp := modify i (set_name "span") sp in
      modify i (map_attrs (set_class "link")) sp)
    (ids (select_in sp data [Desc (tag_ "a")])) sp.

(** [_parse_quotes] *)
Definition _parse_quotes (sp : soup) (data : nat) : soup :=
  fold_left (λ sp i,
      let sp := modify i (set_name "div") sp in
      modify i (map_attrs (set_class "quote")) sp)
    (ids (select_in sp data [Desc (tag_ "blockquote")])) sp.

(** [_parse_footnotes] *)
Definition footnoteref_body (sp : soup) (i : nat) : result soup :=
  match lookup sp i ≫= first_tag "a" with
  | None => Raise AttributeError              (* i.a is None *)
  | Some a =>
      match string_of a with
      | None => Raise TypeError               (* i.string = None *)
      | Some s => Ok (set_string sp i s)
      end
  end.

Definition footnote_footer_body (sp : soup) (i : nat) : soup :=
  let sp := modify i (map_attrs (set_class "footnote")) sp in
  let sp := modify i (map_attrs (del_str "id")) sp in
  set_string sp i (foldr String.append "" (from_option strings [] (lookup sp i))).

Definition _parse_footnotes (sp : soup) (data : nat) : result soup :=
  sp ← for_each footnoteref_body
        (ids (select_in sp data [Desc (tag_class "sup" "footnoteref")])) sp;
  Ok (fold_left footnote_footer_body
        (ids (select_in sp data [Desc (tag_class "sup" "footnote-footer")])) sp).

(** [_parse_images] *)
Definition old_style (sp : soup) (p : nat) : bool :=
  negb (bool_decide (select_in sp p
          [Desc (tag_ "table"); Desc (tag_ "tr"); Desc (tag_ "td"); Desc (tag_ "img")] = []))
  && bool_decide (length (select_in sp p
          [Desc (tag_ "table"); Desc (tag_ "tr"); Desc (tag_ "td")]) = 1%nat).

Definition new_style (sp : soup) (p : nat) : bool :=
  match a_class (from_option attrs_of no_attrs (lookup sp p)) with
  | None => false
  | Some (AList l) => bool_decide ("scp-image-block" ∈ l)
  | Some (AStr s) => is_substring "scp-image-block" s
  end.

(** [page, image_url = src.split("/")[-2:]], then the new [src] *)
Definition local_path (src : string) : result string :=
  match last_items 2 (split "/"%char src) with
  | [page; image_url] => Ok ("images/" +:+ page +:+ "_" +:+ image_url)
  | _ => Raise ValueError
  end.

Definition image_body (catalog : gmap string Snapshot.Image)
    (st : soup * list string) (i : nat) : result (soup * list string) :=
  let '(sp, images) := st in
  match lookup sp i with
  | None => Ok st                                  (* i.name is None *)
  | Some n =>
      match get_str "src" n with
      | None => Ok st                              (* not i.has_attr('src') *)
      | Some src =>
          if bool_decide (is_Some (catalog !! src)) then
            let images := (images ++ [src])%list in
            path ← local_path src;
            Ok (modify i (map_attrs (set_str "src" path)) sp, images)
          else
            match List.find (λ p, old_style sp p || new_style sp p)
                            (parents sp i) with
            | Some p => Ok (decompose sp p, images)
            | None => Ok (decompose sp i, images)
            end
      end
  end.

Definition _parse_images (catalog : gmap string Snapshot.Image)
    (sp : soup) (data : nat) (images : list string)
    : result (soup * list string) :=
  for_each (image_body catalog) (ids (select_in sp data [Desc (tag_ "img")]))
           (sp, images).

(* ===================================================================== *)
(** ** Page: the object, its constructor, [links] and [children] *)
(* ===================================================================== *)

(** The attributes of a [Page] object.  [comments], [tags], [title] and
    [_raw_html] exist only once a url was parsed; [children_attr] is the
    instance attribute [self.children] that [_override] may set over the
    method of the class. *)
#[warnings="-register-all"]
Inductive Page := mkPage {
  url : option string;
  data : option string;
  rating : option string;
  images : list string;
  history : list Revision;
  authors : list author;
  votes : list VoteData;
  comments : option Py.value;
  tags : option (list (option string));
  title : option string;
  _raw_html : option node;
  children_attr : option (list Page) }.

Definition set_data (v : option string) (p : Page) : Page :=
  mkPage (url p) v (rating p) (images p) (history p) (authors p) (votes p)
         (comments p) (tags p) (title p) (_raw_html p) (children_attr p).
Definition set_rating (v : option string) (p : Page) : Page :=
  mkPage (url p) (data p) v (images p) (history p) (authors p) (votes p)
         (comments p) (tags p) (title p) (_raw_html p) (children_attr p).
Definition set_images (v : list string) (p : Page) : Page :=
  mkPage (url p) (data p) (rating p) v (history p) (authors p) (votes p)
         (comments p) (tags p) (title p) (_raw_html p) (children_attr p).
Definition set_history (v : list Revision) (p : Page) : Page :=
  mkPage (url p) (data p) (rating p) (images p) v (authors p) (votes p)
         (comments p) (tags p) (title p) (_raw_html p) (children_attr p).
Definition set_authors (v : list author) (p : Page) : Page :=
  mkPage (url p) (data p) (rating p) (images p) (history p) v (votes p)
         (comments p) (tags p) (title p) (_raw_html p) (children_attr p).
Definition set_votes (v : list VoteData) (p : Page) : Page :=
  mkPage (url p) (data p) (rating p) (images p) (history p) (authors p) v
         (comments p) (tags p) (title p) (_raw_html p) (children_attr p).
Definition set_comments (v : Py.value) (p : Page) : Page :=
  mkPage (url p) (data p) (rating p) (images p) (history p) (authors p) (votes p)
         (Some v) (tags p) (title p) (_raw_html p) (children_attr p).
Definition set_tags (v : list (option string)) (p : Page) : Page :=
  mkPage (url p) (data p) (rating p) (images p) (history p) (authors p) (votes p)
         (comments p) (Some v) (title p) (_raw_html p) (children_attr p).
Definition set_title (v : string) (p : Page) : Page :=
  mkPage (url p) (data p) (rating p) (images p) (history p) (authors p) (votes p)
         (comments p) (tags p) (Some v) (_raw_html p) (children_attr p).
Definition set_raw_html (v : node) (p : Page) : Page :=
  mkPage (url p) (data p) (rating p) (images p) (history p) (authors p) (votes p)
         (comments p) (tags p) (title p) (Some v) (children_attr p).
Definition set_children (v : list Page) (p : Page) : Page :=
  mkPage (url p) (data p) (rating p) (images p) (history p) (authors p) (votes p)
         (comments p) (tags p) (title p) (_raw_html p) (Some v).

(** [x in self.tags] *)
Definition has_tag (p : Page) (x : string) : bool :=
  bool_decide (Some x ∈ default [] (tags p)).
(** [any(i in self.tags for i in xs)] *)
Definition any_tag (p : Page) (xs : list string) : bool := existsb (has_tag p) xs.

(** ['{}'.format(x)] of a string or of [None] *)
Definition format_opt (x : option string) : string := default "None" x.

(** The entries of [ov_children]: what to call, and on what. *)
Inductive ov_func :=
| _inrange (x : list nat)      (** [(_inrange, range(2, 11))] *)
| _except (x : string)         (** [(_except, "...")] *)
| list_empty.                  (** [(list, "")] *)

Definition ov_data : list (string * option string) := [("scp-1047-j", None)].
Definition ov_children : list (string * ov_func) :=
  [ ("scp-2998", _inrange (seq 2 9));
    ("wills-and-ways-hub", _except "marshall-carter-and-dark-hub");
    ("serpent-s-hand-hub", _except "black-queen-hub");
    ("chicago-spirit-hub", list_empty) ].

(** [self.url == "http://www.scp-wiki.net/" + partial_url] *)
Definition url_is (p : Page) (partial_url : string) : bool :=
  bool_decide (url p = Some (site +:+ "/" +:+ partial_url)).

(** [links]: one turn of [for a in soup.select("#page-content a")] *)
Definition links_body (links : list string) (a : node) : result (list string) :=
  match get_str "href" a with
  | None => Ok links
  | Some href =>
      match href with
      | EmptyString => Raise IndexError                    (* a["href"][0] *)
      | String c _ =>
          if negb (bool_decide (c = "/"%char)) then Ok links
          else if bool_decide (last_chars 4 href ∈ [".png"; ".jpg"; ".gif"])
          then Ok links
          else
            let url := rstrip (is_char "|"%char) (site +:+ href) in
            if bool_decide (url ∈ links) then Ok links
            else Ok (links ++ [url])%list
      end
  end.

(** [Page.links].  [_raw_html] is a row's [html], which is never NULL, so
    the [is None] exit is not taken for a parsed page; without the
    attribute the access fails. *)
Definition links (self : Page) : result (list string) :=
  match _raw_html self with
  | None => Raise AttributeError
  | Some doc =>
      for_each links_body
        (select [Desc (hash_id "page-content"); Desc (tag_ "a")] doc) []
  end.

(** [backlinks(page, child)] inside [children]; [self] is the page too. *)
Definition backlinks (self child : Page) : result bool :=
  ls ← links child;
  if bool_decide (url self ∈ map Some ls) then Ok true else
  match _raw_html child with
  | None => Raise AttributeError
  | Some doc =>
      match list.last (select [Desc (hash_id "breadcrumbs"); Desc (tag_ "a")] doc) with
      | None => Ok false
      | Some crumb =>
          match get_str "href" crumb with
          | None => Raise KeyError
          | Some href => Ok (bool_decide (url self = Some (site +:+ href)))
          end
      end
  end.

Section Crawler.

Context {ext : External}.
(** [Page.sn]: the snapshot every page is built from. *)
Variable sn : Snapshot.t.

(** [_parse_body] *)
Definition _parse_body (self : Page) (sp : soup) (doc : nat)
  : result (soup * Page) :=
  match select_in sp doc [Desc (hash_id "page-content")] with
  | [] => Ok (sp, set_data None self)
  | d :: _ =>
      let data := default 0%nat (nid d) in
      let sp := fold_left decompose
        (ids (select_in sp data [Desc (tag_class "div" "page-rate-widget-box")]))
        sp in
      sp ← _parse_tabviews sp data;
      sp ← _parse_collapsibles sp data;
      sp ← _parse_footnotes sp data;
      let sp := _parse_links sp data in
      let sp := _parse_quotes sp data in
      '(sp, imgs) ← _parse_images (Snapshot.images sn) sp data (images self);
      Ok (sp, set_data (Some (str_of_tag (lookup sp data))) (set_images imgs self))
  end.

(** [_parse_title] *)
Definition _parse_title (self : Page) (sp : soup) (doc : nat) : result Page :=
  let title :=
    match select_in sp doc [Desc (hash_id "page-title")] with
    | t :: _ => strip_space (text t)
    | [] => ""
    end in
  title ←
    match tags self with
    | None => Raise AttributeError                  (* no [self.tags] *)
    | Some _ =>
        if has_tag self "scp" then
          match url self with
          | None => Raise TypeError                 (* re.search(..., None) *)
          | Some u =>
              if search_scp_number u then
                canon ← Snapshot.title sn u;
                Ok (title +:+ ": " +:+ canon)
              else Ok title
          end
        else Ok title
    end;
  Ok (set_title title self).

(** [_parse_html] *)
Definition _parse_html (self : Page) (raw_html : node) : result Page :=
  let sp := make_soup raw_html in
  let doc := default 0%nat (nid raw_html) in
  let self :=
    match select_in sp doc [Desc (hash_id "pagerate-button"); Desc (tag_ "span")] with
    | r :: _ => set_rating (Some (text r)) self
    | [] => self
    end in
  let self :=
    match select_in sp doc [Desc (hash_id "discuss-button")] with
    | b :: _ =>
        match search_digits (text b) with
        | Some comments => set_comments (VStr comments) self
        | None => set_comments (VInt 0) self
        end
    | [] => set_comments (VInt 0) self
    end in
  '(sp, self) ← _parse_body self sp doc;
  let self :=
    set_tags (map string_of
                (select_in sp doc [Desc (tag_class "div" "page-tags"); Desc (tag_ "a")]))
             self in
  self ← _parse_title self sp doc;
  let cls := if has_tag self "scp" then "scp-title" else "tale-title" in
  Ok (set_data (Some ("<p class='" +:+ cls +:+ "'>" +:+ format_opt (title self)
                      +:+ "</p>" +:+ format_opt (data self))) self).

(** [_parse_history] *)
Definition history_row (i : node) : result Revision :=
  let rev_data := select [Desc (tag_ "td")] i in
  c0 ← item rev_data 0;
  number ← py_int (strip (is_char "."%char) (text c0));
  c4 ← item rev_data 4;
  c5 ← item rev_data 5;
  time ← arrow_reformat (text c5);
  c6 ← item rev_data 6;
  Ok (mkRevision number (text c4) time (text c6)).

Definition _parse_history (self : Page) (raw_history : node) : result Page :=
  history ← map_gen history_row (drop 1 (select [Desc (tag_ "tr")] raw_history));
  Ok (set_history (rev history) self).

(** [_parse_votes]; [i.next_sibling.next_sibling.text] needs a tag two
    places after [i]. *)
Definition vote_row (doc : node) (i : node) : result VoteData :=
  let after :=
    match parent_in (default 0%nat (nid i)) doc with
    | Some (p, idx) => drop (S idx) (from_option contents [] (find p doc))
    | None => []
    end in
  match after with
  | _ :: (Elem _ _ _ _ as sib) :: _ =>
      Ok (mkVoteData (text i) (strip_space (text sib)))
  | _ => Raise AttributeError
  end.

Definition _parse_votes (self : Page) (raw_votes : node) : result Page :=
  votes ← map_gen (vote_row raw_votes)
            (select [Desc (tag_class "span" "printuser")] raw_votes);
  Ok (set_votes votes self).

(** [_meta_authors] *)
Definition _meta_authors (self : Page) : result (list author) :=
  first_rev ← first_item (history self);
  let his_author := user first_rev in
  match url self ≫= Snapshot.rewrite sn with
  | Some rw =>
      if Snapshot.override rw then Ok [au (Snapshot.author rw) original]
      else Ok [au his_author original; au (Snapshot.author rw) rewrite]
  | None => Ok [au his_author original]
  end.

(** [Page.children], the method of the class; [mk] is [Page(url)]. *)
Definition collect (mk : string → result Page) (lpages : list Page)
    (url : string) : result (list Page) :=
  match mk url with
  | Ok p => Ok (if data p is Some _ then lpages ++ [p] else lpages)%list
  | Raise DBPage_DoesNotExist => Ok lpages
  | Raise e => Raise e
  end.

Definition Page_children (mk : string → result Page) (self : Page)
  : result (list Page) :=
  match tags self with
  | None => Ok []                                  (* not hasattr(self, "tags") *)
  | Some _ =>
      if negb (any_tag self ["scp"; "hub"; "goi2014"; "splash"]) then Ok [] else
      ls ← links self;
      lpages ← for_each (collect mk) ls [];
      if any_tag self ["scp"; "splash"] then
        Ok (List.filter (λ i, any_tag i ["supplement"; "splash"]) lpages)
      else if has_tag self "hub" && any_tag self ["tale"; "goi2014"] then
        let mpages :=
          List.filter (λ i, any_tag i ["tale"; "goi-format"; "goi2014"]) lpages in
        found ← any_gen (backlinks self) mpages;
        if (found : bool) then filter_gen (backlinks self) mpages else Ok mpages
      else Ok []
  end.

(** [_override] *)
Definition call_ov (mk : string → result Page) (self : Page) (f : ov_func)
  : result (list Page) :=
  match f with
  | _inrange x =>
      map_gen (λ n, mk (format_opt (url self) +:+ "-" +:+ str_of_nat n)) x
  | _except x =>
      cs ← Page_children mk self;
      Ok (List.filter (λ p, negb (bool_decide (url p = Some (site +:+ "/" +:+ x)))) cs)
  | list_empty => Ok []
  end.

Definition _override (mk : string → result Page) (self : Page) : result Page :=
  let self :=
    fold_left (λ self '(partial_url, data),
                 if url_is self partial_url then set_data data self else self)
              ov_data self in
  for_each (λ self '(partial_url, func),
              if url_is self partial_url then
                new_children ← call_ov mk self func;
                Ok (set_children new_children self)
              else Ok self)
           ov_children self.

Definition blank (url : option string) : Page :=
  mkPage url None None [] [] [] [] None None None None None.

(** [Page.__init__], the part under [if url is not None] *)
Definition parse_record (url : string) : result Page :=
  pd ← Snapshot.pagedata sn url;
  self ← _parse_html (blank (Some url)) (Snapshot.html pd);
  let self := set_raw_html (Snapshot.html pd) self in
  self ← match Snapshot.history pd with
         | Some h =>
             self ← _parse_history self h;
             a ← _meta_authors self;
             Ok (set_authors a self)
         | None => Ok self
         end;
  match Snapshot.votes pd with
  | Some v => _parse_votes self v
  | None => Ok self
  end.

(** [Page(url)].  Building a page may build further pages (the
    overrides do, directly or through [children]); [fuel] bounds the
    depth of that nesting. *)
Fixpoint Page_init (fuel : nat) (url : option string) : result Page :=
  match fuel with
  | O => Raise OutOfFuel
  | S fuel' =>
      self ← match url with
             | Some u => parse_record u
             | None => Ok (blank None)
             end;
      _override (λ u, Page_init fuel' (Some u)) self
  end.

(** [page.children()]: the instance attribute if [_override] set one,
    the method otherwise. *)
Definition children (fuel : nat) (self : Page) : result (list Page) :=
  match children_attr self with
  | Some new_children => Ok new_children
  | None => Page_children (λ u, Page_init fuel (Some u)) self
  end.

End Crawler.

(* ===================================================================== *)
(** ** Strings: prefixes and separators *)
(* ===================================================================== *)

(** [s.startswith(p)] *)
Fixpoint startswith (p s : string) : bool :=
  match p, s with
  | EmptyString, _ => true
  | String a p', String b s' => bool_decide (a = b) && startswith p' s'
  | String _ _, EmptyString => false
  end.

(** The first place where [sep] stands in [s]: the text before it and the
    text after it. *)
Fixpoint split_once (sep s : string) : option (string * string) :=
  if startswith sep s then Some (EmptyString, string_drop (String.length sep) s)
  else match s with
       | EmptyString => None
       | String c s' =>
           match split_once sep s' with
           | Some (a, b) => Some (String c a, b)
           | None => None
           end
       end.

(** [s.split(sep, maxsplit=1)] for a separator that is not empty *)
Definition split_max1 (sep s : string) : list string :=
  match split_once sep s with
  | Some (a, b) => [a; b]
  | None => [s]
  end.

(** [x, y = l] *)
Definition unpack2 {A} (l : list A) : result (A * A) :=
  match l with
  | [x; y] => Ok (x, y)
  | _ => Raise ValueError
  end.

(* ===================================================================== *)
(** ** WikidotConnector and the scrapers of the snapshot *)
(* ===================================================================== *)

(** [WikidotConnector.pageid]: the search for [pageId = ], any text
    without a semicolon, and a semicolon, giving that text ([group(1)]) or
    [None].  The leftmost match starts at the first [pageId = ] and ends
    at the next semicolon; when no semicolon follows the first one, none
    follows a later one. *)
Definition pageid (html : string) : option string :=
  '(_, rest) ← split_once "pageId = " html;
  '(id, _) ← split_once ";" rest;
  Some id.

(** A row [_scrape_rewrites] yields. *)
Record RewriteRow := mkRewriteRow {
  rr_url : string; rr_author : string; rr_override : bool }.

(** [_scrape_rewrites]: one turn of [for i in soup.select("tr")[1:]] *)
Definition rewrite_entry (i : node) : result RewriteRow :=
  let tds := select [Desc (tag_ "td")] i in
  c0 ← item tds 0;
  let url := site +:+ "/" +:+ text c0 in
  c1 ← item tds 1;
  let author := text c1 in
  if startswith ":override:" author
  then Ok (mkRewriteRow url (string_drop 10 author) true)
  else Ok (mkRewriteRow url author false).

(** [_scrape_rewrites], on the page it fetches *)
Definition _scrape_rewrites (page : node) : result (list RewriteRow) :=
  map_gen rewrite_entry (drop 1 (select [Desc (tag_ "tr")] page)).

(** A row [_scrape_scp_titles] yields. *)
Record TitleRow := mkTitleRow {
  tr_url : string; tr_skip : string; tr_title : string }.

(** [re.search("[SCP]+-[0-9]+", s)], as a truth value: one of the three
    letters, a dash and a digit in a row. *)
Definition is_SCP (c : ascii) : bool :=
  bool_decide (c = "S"%char) || bool_decide (c = "C"%char)
  || bool_decide (c = "P"%char).
Fixpoint search_scp_label (s : string) : bool :=
  match s with
  | EmptyString => false
  | String a s' =>
      match s' with
      | String b (String c _) =>
          is_SCP a && bool_decide (b = "-"%char) && is_digit c
      | _ => false
      end || search_scp_label s'
  end.

(** [_scrape_scp_titles]: one turn of [for i in articles] *)
Definition title_entry (i : node) : result TitleRow :=
  match first_tag "a" i with
  | None => Raise TypeError                          (* i.a is None *)
  | Some a =>
      match get_str "href" a with
      | None => Raise KeyError
      | Some href =>
          let url := site +:+ href in
          '(skip, title) ←
            match unpack2 (split_max1 " - " (text i)) with
            | Ok st => Ok st
            | Raise _ => unpack2 (split_max1 ", " (text i))
            end;
          Ok (mkTitleRow url skip title)
      end
  end.

Definition series_urls : list string :=
  [ site +:+ "/scp-series"; site +:+ "/scp-series-2"; site +:+ "/scp-series-3" ].

(** [_scrape_scp_titles]; [fetch] is [BeautifulSoup(self.wiki.html(url))]. *)
Definition _scrape_scp_titles (fetch : string → result node)
  : result (list TitleRow) :=
  for_each (λ rows url,
      soup ← fetch url;
      let articles :=
        List.filter (λ i, search_scp_label (text i))
                    (select [Desc (tag_ "ul"); Child (tag_ "li")] soup) in
      for_each (λ rows i, r ← title_entry i; Ok (rows ++ [r])%list) articles rows)
    series_urls [].

(* ===================================================================== *)
(** ** [get_all] *)
(* ===================================================================== *)

(** [query.paginate(n, per)]: the rows [per * (n - 1)] to [per * n - 1]. *)
Definition paginate {A} (n per : nat) (rows : list A) : list A :=
  take per (drop ((n - 1) * per) rows).

(** The order of [order_by(DBPage.url)]: byte by byte. *)
Definition url_le (a b : string) : Prop := String.leb a b = true.
Global Instance url_le_dec a b : Decision (url_le a b).
Proof. unfold url_le. apply _. Defined.

(** [DBPage.select().order_by(DBPage.url)] *)
Definition ordered_urls (sn : Snapshot.t) : list string :=
  merge_sort url_le (map_to_list (Snapshot.DBPage sn)).*1.

Section GetAll.

Context {ext : External}.
Variable sn : Snapshot.t.

(** [get_all], run to its end: the pages it yields, or the exception
    that ends it. *)
Definition get_all (fuel : nat) : result (list Page) :=
  let count := size (Snapshot.DBPage sn) in
  for_each (λ pages n,
      for_each (λ pages u, p ← Page_init sn fuel (Some u); Ok (pages ++ [p])%list)
               (paginate n 50 (ordered_urls sn)) pages)
    (seq 1 (count / 50 + 1)) [].

End GetAll.

(* ===================================================================== *)
(** ** [utils.split] *)
(* ===================================================================== *)

Module Utils.

(** The alternative that matches at the head of [s]: the first of the
    delimiters that [s] starts with. *)
Definition match_here (delimeters : list string) (s : string) : option string :=
  List.find (λ d, startswith d s) delimeters.

Definition push (c : ascii) (pieces : list string) : list string :=
  match pieces with
  | p :: ps => String c p :: ps
  | [] => [String c EmptyString]
  end.

(** [re.split(pattern, text)] for the pattern
    ['|'.join(map(re.escape, delimeters))], with delimiters that are not
    empty: the text is read from the left, and where a delimiter
    matches, the piece ends and the delimiter is passed over.  [fuel]
    bounds the number of characters read. *)
Fixpoint split_from (fuel : nat) (delimeters : list string) (s : string)
  : list string :=
  match fuel, s with
  | S fuel', String c s' =>
      match match_here delimeters s with
      | Some d =>
          EmptyString
            :: split_from fuel' delimeters (string_drop (String.length d) s)
      | None => push c (split_from fuel' delimeters s')
      end
  | _, _ => [s]
  end.

Definition split (text : string) (delimeters : list string) : list string :=
  split_from (String.length text) delimeters text.

End Utils.

(* ===================================================================== *)
(** ** Vocabulary of the statements *)
(* ===================================================================== *)

Open Scope list_scope.
Open Scope nat_scope.

(** The attributes [_override] does not assign. *)
Definition same_meta (p q : Page) : Prop :=
  url p = url q ∧ history p = history q ∧ authors p = authors q
  ∧ tags p = tags q ∧ _raw_html p = _raw_html q ∧ comments p = comments q.

Definition resolver_tags : list string := ["scp"; "hub"; "goi2014"; "splash"].

(** The anchors of the content region, and the addresses they stand for. *)
Definition anchors (doc : node) : list node :=
  select [Desc (hash_id "page-content"); Desc (tag_ "a")] doc.
Definition hrefs (doc : node) : list string := omap (get_str "href") (anchors doc).
Definition internal (href : string) : bool :=
  match href with
  | String c _ => bool_decide (c = "/"%char)
  | EmptyString => false
  end.
Definition image_file (href : string) : bool :=
  bool_decide (last_chars 4 href ∈ [".png"; ".jpg"; ".gif"]).
(** The targets as the markup has them: the internal addresses, image
    files left out, nothing stripped. *)
Definition targets (doc : node) : list string :=
  map (String.append site)
      (List.filter (λ h, internal h && negb (image_file h)) (hrefs doc)).

(** Duplicates removed, each address staying at its first place. *)
Definition dedup_first (l : list string) : list string :=
  reverse (remove_dups (reverse l)).

Definition add_new (acc : list string) (u : string) : list string :=
  if bool_decide (u ∈ acc) then acc else (acc ++ [u])%list.

(** What [links] keeps of an [href], and what it makes of it. *)
Definition kept (href : string) : bool := internal href && negb (image_file href).
Definition address (href : string) : string :=
  rstrip (is_char "|"%char) (site +:+ href).
Global Arguments kept : simpl never.
Global Arguments address : simpl never.

(** The pages behind the links of a page: [lpages] in [Page.children]. *)
Definition resolved (mk : string → result Page) (self : Page)
  : result (list Page) :=
  ls ← links self; for_each (collect mk) ls [].

(** A candidate child of a hub, by its tags. *)
Definition tag_matched (c : Page) : bool :=
  any_tag c ["tale"; "goi-format"; "goi2014"].

(** The address the last breadcrumb of a page leads to. *)
Definition last_crumb (c : Page) : option string :=
  doc ← _raw_html c;
  crumb ← list.last (select [Desc (hash_id "breadcrumbs"); Desc (tag_ "a")] doc);
  href ← get_str "href" crumb;
  Some (site +:+ href).

(** A candidate is confirmed when the hub's url is among its own links,
    or its last breadcrumb leads to the hub's url. *)
Definition confirmed (hub c : Page) : bool :=
  match url hub with
  | None => false
  | Some u =>
      match links c with
      | Ok ls => bool_decide (u ∈ ls)
      | Raise _ => false
      end
      || bool_decide (last_crumb c = Some u)
  end.

(** The identities of the tags of a tree. *)
Fixpoint all_ids (n : node) : list nat :=
  match n with
  | Text _ => []
  | Elem i _ _ ks => i :: flat_map all_ids ks
  end.

Definition soup_ids (sp : soup) : list nat := flat_map all_ids (roots sp).


Definition remove_list (i : nat) (ks : list node) : list node :=
  flat_map (λ k, if is_id i k then [] else [remove i k]) ks.



Definition nodes (n : node) : list node := n :: descendants n.
Definition all_nodes (sp : soup) : list node := flat_map nodes (roots sp).
Global Arguments nodes : simpl never.

(** A tag that equals a title block made by [_parse_tabviews], its
    contents apart: a [div] whose one attribute is the class
    [tab-title], as the tree builder holds it. *)
Definition title_like (n : node) : bool :=
  bool_decide (name n = Some "div" ∧ attrs_of n = new_class "tab-title").

Definition no_title_kid (y : node) : Prop :=
  Forall (λ k, title_like k = false) (contents y).
Definition title_head (lo hi : nat) (y : node) : Prop :=
  ∃ t ks i, contents y = t :: ks ∧ title_like t = true
            ∧ nid t = Some i ∧ lo ≤ i < hi.
Definition bounded (b : nat) (y : node) : Prop := ∀ j, nid y = Some j → j < b.

(** A function on tags that keeps identity, name and attributes. *)
Definition keeps_tag (f : node → node) : Prop :=
  ∀ m, nid (f m) = nid m ∧ name (f m) = name m ∧ attrs_of (f m) = attrs_of m.

(** With the blocks [P] done: a block of [P] starts with its title
    block, one still to do holds no title block. *)
Definition good (tabs : list nat) (lo : nat) (P : list nat) (hi : nat) (y : node)
  : Prop :=
  ∀ j, nid y = Some j → j ∈ tabs →
    (j ∈ P → title_head lo hi y) ∧ (j ∉ P → no_title_kid y).

(** What holds between two turns of [for k in tabs]. *)
Record Inv (tabs : list nat) (lo : nat) (P : list nat) (hi : nat) (sp : soup)
  : Prop := {
  inv_bounded : Forall (bounded (fresh sp)) (all_nodes sp);
  inv_good : Forall (good tabs lo P hi) (all_nodes sp);
  inv_hi : (hi ≤ fresh sp)%nat;
  inv_lo : (lo ≤ hi)%nat }.

(** The title block, once its text is set. *)
Definition title_block (t : nat) (txt : string) : node :=
  Elem t "div" (new_class "tab-title") [Text txt].

(** What one turn of [for i in data.select("div.yui-navset")] reads
    before it rewrites the blocks. *)
Definition tab_soup (sp : soup) : soup :=
  (new_tag sp "div" (new_class "tabview")).1.
Definition tab_titles (sp : soup) (i : nat) : list string :=
  map text (select_in (tab_soup sp) i
              [Desc (tag_class "ul" "yui-nav"); Desc (tag_ "em")]).
Definition tab_blocks (sp : soup) (i : nat) : list nat :=
  ids (select_in (tab_soup sp) i
         [Desc (tag_class "div" "yui-content"); Child (tag_ "div")]).

(** A tab view the index-of search cannot be misled in: no block of the
    tab view has a child that equals a title block (a [div] with the one
    attribute [class="tab-title"]); and the identities in use lie below
    the next fresh one, as in every soup the crawler makes. *)
Definition tab_ready (sp : soup) (tabs : list nat) : bool :=
  forallb (λ y, match nid y with
                | Some j => j <? fresh sp
                | None => true
                end) (all_nodes sp)
  && forallb (λ k, k <? fresh sp) tabs
  && forallb (λ y, match nid y with
                   | Some j => negb (bool_decide (j ∈ tabs))
                               || forallb (λ k, negb (title_like k)) (contents y)
                   | None => true
                   end) (all_nodes sp).

(** A soup without a tag that equals a title block, every identity
    below the next fresh one. *)
Definition plain (sp : soup) : bool :=
  forallb (λ y, negb (title_like y)
                && match nid y with
                   | Some j => j <? fresh sp
                   | None => true
                   end) (all_nodes sp).

(** Markup without a [div] whose one attribute is [class="tab-title"]. *)
Definition title_free (doc : node) : bool :=
  forallb (λ y, negb (title_like y)) (nodes doc).

(** A url of the asset catalog. *)
Definition in_catalog (sn : Snapshot.t) (x : string) : Prop :=
  is_Some (Snapshot.images sn !! x).

(** A change of the name and the attributes of a tag. *)
Definition head_map (gn : string → string) (ga : attrs → attrs) (n : node)
  : node :=
  match n with
  | Elem i nm a ks => Elem i (gn nm) (ga a) ks
  | Text _ => n
  end.

(** [o'] is the tag [o] with its name and attributes changed by [gn] and
    [ga], whatever became of its contents; or neither is there. *)
Definition heads_rel (gn : string → string) (ga : attrs → attrs)
    (o o' : option node) : Prop :=
  match o, o' with
  | None, None => True
  | Some (Elem j nm a _), Some (Elem j' nm' a' _) =>
      j' = j ∧ nm' = gn nm ∧ a' = ga a
  | _, _ => False
  end.

(** The pieces with the separators put back between them. *)
Fixpoint weave (pieces seps : list string) : string :=
  match pieces with
  | [] => ""
  | p :: ps =>
      match seps with
      | [] => p
      | d :: ds => p +:+ d +:+ weave ps ds
      end
  end.

(* ===================================================================== *)
(** ** Sample markup and snapshots *)
(* ===================================================================== *)

Module Sample.

(** A plain serialiser and plain conversions, to run the pages below. *)
Fixpoint show (n : node) : string :=
  match n with
  | Text s => s
  | Elem _ nm _ ks => "<" +:+ nm +:+ ">" +:+ foldr (λ k acc, show k +:+ acc) "" ks
                      +:+ "</" +:+ nm +:+ ">"
  end.

Definition ext : External :=
  {| str_of_tag := from_option show "";
     py_int := λ s, match NilEmpty.uint_of_string s with
                    | Some u => Ok (Z.of_uint u)
                    | None => Raise ValueError
                    end;
     arrow_reformat := Ok |}.

Definition cl (c : string) : attrs := Attrs (Some (AList [c])) ∅.
Definition at1 (k v : string) : attrs := Attrs None {[ k := v ]}.
Definition el (i : nat) (nm : string) (ks : list node) : node :=
  Elem i nm no_attrs ks.
Definition link (i : nat) (href : string) : node :=
  Elem i "a" (at1 "href" href) [Text href].

(** A page: title, optional content region, tags, and what else the
    body holds (button, breadcrumbs). *)
Definition doc (title : string) (content : option (list node))
    (tags : list string) (rest : list node) : node :=
  Elem 0 "[document]" no_attrs
    ([Elem 1 "div" (at1 "id" "page-title") [Text title]]
     ++ match content with
        | Some ks => [Elem 2 "div" (at1 "id" "page-content") ks]
        | None => []
        end
     ++ [Elem 3 "div" (cl "page-tags")
           (imap (λ i t, Elem (100 + i) "a" no_attrs [Text t]) tags)]
     ++ rest)%list.

Definition row (pd : node) : Snapshot.PageData := Snapshot.mkPageData pd None None.
Definition at_ (partial_url : string) : string := site +:+ "/" +:+ partial_url.
Definition page_of (r : result Page) : Page :=
  match r with Ok p => p | Raise _ => blank None end.

(** A forum page: no content region. *)
Definition forum : Snapshot.t :=
  Snapshot.mk {[ at_ "forum:start" := row (doc "Forum" None [] []) ]} ∅ ∅ [].

(** A tale with twelve comments. *)
Definition discussed : Snapshot.t :=
  Snapshot.mk
    {[ at_ "a-tale" :=
         row (doc "A Tale" (Some [Text "text"]) ["tale"]
                [Elem 4 "a" (at1 "id" "discuss-button") [Text "Discuss (12)"]]) ]}
    ∅ ∅ [].

(** scp-2998 without tags, and the nine pages scp-2998-2 ... -10. *)
Definition ranged : Snapshot.t :=
  Snapshot.mk
    (list_to_map
       ((at_ "scp-2998", row (doc "2998" (Some [Text "x"]) [] []))
        :: map (λ n, (at_ "scp-2998" +:+ "-" +:+ str_of_nat n,
                      row (doc "part" (Some [Text "y"]) [] [])))
               (seq 2 9)))
    ∅ ∅ [].

(** A hub with the given tags that links to two tales; the second links
    back to the hub. *)
Definition hubs (tags : list string) : Snapshot.t :=
  Snapshot.mk
    {[ at_ "a-hub" :=
         row (doc "Hub" (Some [link 10 "/tale-a"; link 11 "/tale-b"]) tags []);
       at_ "tale-a" := row (doc "A" (Some [Text "a"]) ["tale"] []);
       at_ "tale-b" := row (doc "B" (Some [link 10 "/a-hub"]) ["tale"] []) ]}
    ∅ ∅ [].

Definition page (sn : Snapshot.t) (partial_url : string) : Page :=
  page_of (Page_init (ext:=ext) sn 2 (Some (at_ partial_url))).

Definition urls (r : result (list Page)) : result (list (option string)) :=
  map url <$> r.

(** A history table: the heading row, then the revisions, newest first. *)
Definition revision_row (i : nat) (no user when note : string) : node :=
  el i "tr" (imap (λ n s, el (S i + n) "td" [Text s])
               [no; ""; ""; ""; user; when; note]).
Definition history_table : node :=
  el 0 "table"
    [el 1 "tr" [el 2 "td" [Text "rev."]];
     revision_row 10 "1." "carol" "02 Jan 2014 10:00" "typo";
     revision_row 20 "0." "alice" "01 Jan 2014 09:00" "new"].

Definition authored (rw : option Snapshot.Rewrite) : Snapshot.t :=
  Snapshot.mk
    {[ at_ "a-tale" :=
         Snapshot.mkPageData (doc "A Tale" (Some [Text "text"]) ["tale"] [])
                             (Some history_table) None ]}
    ∅
    (from_option (λ r, {[ at_ "a-tale" := r ]}) ∅ rw)
    [].

(** Images: one outside the catalog and one inside it, alone or under
    one block. *)
Definition img (i : nat) (src : string) : node := Elem i "img" (at1 "src" src) [].
Definition absent : string := "http://scp-wiki.wdfiles.com/local--files/scp-1/gone.png".
Definition present : string := "http://scp-wiki.wdfiles.com/local--files/scp-1/here.png".
Definition catalog : gmap string Snapshot.Image :=
  {[ present := Snapshot.mkImage "scp-1" "bytes" ]}.

(** Anchors of a content region. *)
Definition linked (hrefs : list string) : Page :=
  set_raw_html
    (doc "Links" (Some (imap (λ i h, link (10 + i) h) hrefs)) [] [])
    (blank None).

(** A tab view: the titles in the navigation list, the blocks in the
    content division. *)
Definition tabview (titles : list string) (blocks : list (list node)) : node :=
  Elem 10 "div" (cl "yui-navset")
    [Elem 11 "ul" (cl "yui-nav")
       (imap (λ n t, el (20 + 2 * n) "li" [el (21 + 2 * n) "em" [Text t]]) titles);
     Elem 12 "div" (cl "yui-content")
       (imap (λ n ks, el (60 + n) "div" ks) blocks)].
Definition tabbed (titles : list string) (blocks : list (list node)) : soup :=
  make_soup (Elem 2 "div" (at1 "id" "page-content") [tabview titles blocks]).

(** The text of the first child of each of the tags [ks]. *)
Definition heads (ks : list nat) (sp : soup) : list (option string) :=
  map (λ k, n ← lookup sp k; t ← head (contents n); Some (text t)) ks.

(** A tale with one image of the catalog and one outside it. *)
Definition illustrated : Snapshot.t :=
  Snapshot.mk
    {[ at_ "a-tale" :=
         row (doc "A Tale" (Some [el 10 "p" [img 11 present];
                                  el 12 "p" [img 13 absent]]) ["tale"] []) ]}
    catalog ∅ [].

(** A tale whose history table has its heading row only. *)
Definition unrevised : Snapshot.t :=
  Snapshot.mk
    {[ at_ "a-tale" :=
         Snapshot.mkPageData (doc "A Tale" (Some [Text "text"]) ["tale"] [])
           (Some (el 0 "table" [el 1 "tr" [el 2 "td" [Text "rev."]]])) None ]}
    ∅ ∅ [].


(** The votes module's markup: a user span, a line break, the vote. *)
Definition votes_markup : node :=
  el 0 "[document]"
    [Elem 1 "span" (cl "printuser") [Text "alice"]; Text " ";
     el 2 "span" [Text " + "]; el 3 "br" [];
     Elem 4 "span" (cl "printuser") [Text "bob"]; Text " ";
     el 5 "span" [Text " - "]; el 6 "br" []].

(** An article that links to a supplement and to a tale. *)
Definition supplemented : Snapshot.t :=
  Snapshot.mk
    {[ at_ "scp-100" :=
         row (doc "SCP-100" (Some [link 10 "/supplement-a"; link 11 "/tale-a"])
                ["scp"] []);
       at_ "supplement-a" := row (doc "S" (Some [Text "s"]) ["supplement"] []);
       at_ "tale-a" := row (doc "A" (Some [Text "a"]) ["tale"] []) ]}
    ∅ ∅ [Snapshot.mkTitle (at_ "scp-100") "SCP-100" "The Article"].

(** A row of the rewrite table. *)
Definition rewrite_row : node :=
  el 1 "tr" [el 2 "td" [Text "scp-173"]; el 3 "td" [Text ":override:bob"]].
End Sample.

(* ===================================================================== *)
(** * Theorems *)
(* ===================================================================== *)

#[local] Set Warnings "-clear-no-such-hyp".

(* ===================================================================== *)
(** ** Results about the Python combinators *)
(* ===================================================================== *)

Lemma bind_Ok {A B} (m : result A) (f : A → result B) (b : B) :
  (m ≫= f) = Ok b → ∃ a, m = Ok a ∧ f a = Ok b.
Proof. destruct m as [a|e]; simpl; [eauto | discriminate]. Qed.

Tactic Notation "inv_bind" hyp(H) "as" ident(a) ident(Ha) :=
  apply bind_Ok in H; destruct H as (a & Ha & H).

Lemma for_each_app {S X} (body : S → X → result S) (l1 l2 : list X) (st : S) :
  for_each body (l1 ++ l2) st = (for_each body l1 st ≫= for_each body l2).
Proof.
  revert st. induction l1 as [|x l1 IH]; intros st; simpl; [done|].
  destruct (body st x) as [st'|e]; simpl; [apply IH | done].
Qed.

(** A loop keeps what every turn keeps. *)
Lemma for_each_inv {S X} (P : S → Prop) (body : S → X → result S) l st st' :
  (∀ s x s', x ∈ l → P s → body s x = Ok s' → P s') →
  P st → for_each body l st = Ok st' → P st'.
Proof.
  revert st. induction l as [|x l IH]; simpl; intros st Hstep HP H.
  - by inversion H; subst.
  - inv_bind H as s Hs. eapply (IH s); [|by eapply Hstep; [left|..]|done].
    intros s0 y s1 Hy. apply Hstep. by right.
Qed.

Lemma any_gen_total {A} (f : A → result bool) (g : A → bool) l :
  (∀ x, x ∈ l → f x = Ok (g x)) → any_gen f l = Ok (existsb g l).
Proof.
  induction l as [|x l IH]; intros H; simpl; [done|].
  rewrite (H x) by left. simpl. destruct (g x); simpl; [done|].
  apply IH. intros y Hy. apply H. by right.
Qed.

Lemma filter_gen_total {A} (f : A → result bool) (g : A → bool) l :
  (∀ x, x ∈ l → f x = Ok (g x)) → filter_gen f l = Ok (List.filter g l).
Proof.
  induction l as [|x l IH]; intros H; simpl; [done|].
  rewrite (H x) by left. simpl. rewrite IH; [by destruct (g x)|].
  intros y Hy. apply H. by right.
Qed.

(* ===================================================================== *)
(** ** What the constructor leaves alone *)
(* ===================================================================== *)

Section Frames.
Context {ext : External} (sn : Snapshot.t).

Lemma _override_meta mk self p :
  _override mk self = Ok p → same_meta self p.
Proof.
  unfold _override. intros H.
  eapply (for_each_inv (λ q, same_meta self q)) in H; [done| |].
  - intros s [pu fn] s' _ Hs Hb. destruct (url_is s pu); [|by inversion Hb; subst].
    inv_bind Hb as l Hl. inversion Hb; subst. destruct Hs as (?&?&?&?&?&?).
    by repeat split.
  - simpl. destruct (url_is self "scp-1047-j"); by repeat split.
Qed.

Lemma _parse_body_meta self sp doc sp' p :
  _parse_body sn self sp doc = Ok (sp', p) →
  url p = url self ∧ history p = history self
  ∧ children_attr p = children_attr self.
Proof.
  unfold _parse_body. intros H.
  destruct (select_in sp doc _); [by inversion H; subst|].
  inv_bind H as s1 H1. inv_bind H as s2 H2. inv_bind H as s3 H3.
  inv_bind H as s4 H4. destruct s4. by inversion H; subst.
Qed.

Lemma _parse_html_meta self doc p :
  _parse_html sn self doc = Ok p →
  url p = url self ∧ history p = history self
  ∧ children_attr p = children_attr self.
Proof.
  unfold _parse_html. intros H. inv_bind H as x E. destruct x as [sp q].
  inv_bind H as q' E0. inversion H; subst; clear H. simpl.
  unfold _parse_title in E0. inv_bind E0 as t Et.
  inversion E0; subst; clear E0. simpl.
  apply _parse_body_meta in E as (-> & -> & ->).
  repeat split; by repeat (case_match; simpl).
Qed.
End Frames.

Section Authors.
Context {ext : External} (sn : Snapshot.t).

Lemma parse_record_authors u self :
  parse_record sn u = Ok self →
  url self = Some u ∧ children_attr self = None ∧
  (history self = [] ∨ _meta_authors sn self = Ok (authors self)).
Proof.
  unfold parse_record. intros H. inv_bind H as x E. inv_bind H as x0 E0.
  apply _parse_html_meta in E0 as (Hu & Hh & Hc). simpl in Hu, Hh, Hc.
  inv_bind H as x1 E1.
  assert (url x1 = Some u ∧ children_attr x1 = None ∧
          (history x1 = [] ∨ _meta_authors sn x1 = Ok (authors x1)))
    as (Hu1 & Hc1 & Ha1).
  { destruct (Snapshot.history x).
    - inv_bind E1 as x2 E2. inv_bind E1 as a Ea. inversion E1; subst; clear E1.
      unfold _parse_history in E2. inv_bind E2 as hs Ehs.
      inversion E2; subst; clear E2.
      simpl. do 2 (split; [done|]). right.
      unfold _meta_authors in *. simpl in *. by rewrite Hu in *.
    - inversion E1; subst. simpl. do 2 (split; [done|]). by left. }
  destruct (Snapshot.votes x).
  - unfold _parse_votes in H. inv_bind H as vs Evs. inversion H; subst; clear H.
    simpl. do 2 (split; [done|]). destruct Ha1 as [?|Ha1]; [by left|right].
    unfold _meta_authors in *. by simpl in *.
  - by inversion H; subst.
Qed.

(** C4. For a page built from the snapshot whose history is not empty,
    with X the user of its earliest revision: without a rewrite row for
    the url the authors are [(X, original)]; with a row (Y, no override)
    they are [(X, original); (Y, rewrite)]; with a row (Y, override) they
    are [(Y, original)] alone, so that X appears only if X is Y. *)
Theorem C4_authors_chain fuel u p r rest :
  Page_init sn fuel (Some u) = Ok p →
  history p = r :: rest →
  match Snapshot.rewrite sn u with
  | None => authors p = [au (user r) original]
  | Some rw =>
      if Snapshot.override rw
      then authors p = [au (Snapshot.author rw) original]
           ∧ (user r ≠ Snapshot.author rw →
              user r ∉ map username (authors p))
      else authors p = [au (user r) original; au (Snapshot.author rw) rewrite]
  end.
Proof.
  destruct fuel as [|f]; simpl; [discriminate|]. intros H Hh.
  inv_bind H as self E. apply _override_meta in H as (Hu & Hhist & Hau & _).
  apply parse_record_authors in E as (Hux & _ & Ha).
  rewrite <- Hhist in Hh. destruct Ha as [Ha|Ha]; [congruence|].
  unfold _meta_authors in Ha. rewrite Hh, Hux in Ha. simpl in Ha.
  rewrite <- Hau.
  destruct (Snapshot.rewrite sn u) as [rw|]; [|by inversion Ha].
  destruct (Snapshot.override rw); inversion Ha as [Heq]; [|done].
  split; [done|]. intros Hne. simpl. set_solver.
Qed.
End Authors.

(* ===================================================================== *)
(** ** Overrides and the tag test of [children] *)
(* ===================================================================== *)

(** The method reads the url, the tags and the raw markup of its page. *)
Lemma Page_children_ext mk p q :
  url p = url q → tags p = tags q → _raw_html p = _raw_html q →
  Page_children mk p = Page_children mk q.
Proof.
  destruct p, q; simpl; intros -> -> ->. reflexivity.
Qed.

Lemma call_ov_ext mk p q f :
  url p = url q → tags p = tags q → _raw_html p = _raw_html q →
  call_ov mk p f = call_ov mk q f.
Proof.
  intros Hu Ht Hr. destruct f; simpl; [by rewrite Hu| |done].
  by rewrite (Page_children_ext mk p q).
Qed.

(** The test at the head of [Page.children]. *)
Lemma Page_children_untagged mk self :
  any_tag self resolver_tags = false → Page_children mk self = Ok [].
Proof.
  unfold Page_children, resolver_tags. intros ->. by destruct (tags self).
Qed.

Lemma any_tag_ext p q xs : tags p = tags q → any_tag p xs = any_tag q xs.
Proof. unfold any_tag, has_tag. by intros ->. Qed.

Lemma append_inj_l (s a b : string) : s +:+ a = s +:+ b → a = b.
Proof. induction s as [|c s IH]; simpl; [done|]. intros H. injection H. auto. Qed.

(** The loop of [_override] over a table whose urls differ: the entry of
    the page's url, if there is one, sets the children. *)
Lemma override_loop mk u ovs s p :
  NoDup ovs.*1 → url s = Some u →
  for_each (λ self '(partial_url, func),
              if url_is self partial_url then
                new_children ← call_ov mk self func;
                Ok (set_children new_children self)
              else Ok self) ovs s = Ok p →
  (∀ pu func, (pu, func) ∈ ovs → u = site +:+ "/" +:+ pu →
     ∃ l, call_ov mk s func = Ok l ∧ children_attr p = Some l)
  ∧ ((∀ pu func, (pu, func) ∈ ovs → u ≠ site +:+ "/" +:+ pu) → p = s).
Proof.
  revert s. induction ovs as [|[pu0 f0] ovs IH]; intros s Hnd Hu H; simpl in H.
  { injection H as <-. split; [|done]. intros ?? Hin. by apply elem_of_nil in Hin. }
  inv_bind H as s1 H1. apply list.NoDup_cons in Hnd as [Hnot Hnd].
  unfold url_is in H1. rewrite Hu in H1. case_bool_decide as Heq.
  - injection Heq as ->. inv_bind H1 as l Hl. injection H1 as <-.
    destruct (IH (set_children l s) Hnd Hu H) as [_ Hno].
    assert (p = set_children l s) as ->.
    { apply Hno. intros pu func Hin Hpu. apply append_inj_l in Hpu.
      apply append_inj_l in Hpu. subst pu0.
      apply Hnot. apply list_elem_of_fmap. by exists (pu, func). }
    split.
    + intros pu func Hin Hpu. apply append_inj_l in Hpu.
      apply append_inj_l in Hpu. subst pu0.
      apply elem_of_cons in Hin as [Hin|Hin].
      * injection Hin as <-. by exists l.
      * exfalso. apply Hnot. apply list_elem_of_fmap. by exists (pu, func).
    + intros Hall. exfalso. by apply (Hall pu0 f0); [left|].
  - injection H1 as <-. destruct (IH s Hnd Hu H) as [Hyes Hno]. split.
    + intros pu func Hin Hpu. apply elem_of_cons in Hin as [Hin|Hin].
      * injection Hin as <- <-. by subst u.
      * by apply (Hyes pu func).
    + intros Hall. apply Hno. intros pu func Hin. apply (Hall pu func). by right.
Qed.

Section Overrides.
Context {ext : External} (sn : Snapshot.t).

(** C7. For a page built from the snapshot, or built without a url,
    whose tags share no member with scp, hub, goi2014, splash, and whose
    url is not the one with the range override (scp-2998), [children()]
    is the empty list. *)
Theorem C7_children_empty_without_resolver_tags fuel fuel' ou p :
  Page_init sn fuel ou = Ok p →
  any_tag p resolver_tags = false →
  ou ≠ Some (site +:+ "/scp-2998") →
  children sn fuel' p = Ok [].
Proof.
  destruct fuel as [|f]; simpl; [discriminate|]. intros H Hno Hu.
  destruct ou as [u|].
  2:{ vm_compute in H. injection H as <-. reflexivity. }
  inv_bind H as self E.
  apply parse_record_authors in E as (Hus & Hcs & _).
  pose proof (_override_meta _ _ _ H) as (Hup & _ & _ & Htp & _).
  assert (children_attr p = None ∨ children_attr p = Some []) as Hc.
  { unfold _override in H.
    eapply (for_each_inv (λ q, (url q = Some u ∧ tags q = tags p) ∧
              (children_attr q = None ∨ children_attr q = Some [])))
      in H; [apply H| |].
    - intros s [pu fn] s' Hin [[Hsu Hst] Hsc] Hb.
      unfold url_is in Hb. rewrite Hsu in Hb. case_bool_decide as Heq.
      + inv_bind Hb as l Hl. inversion Hb; subst s'; clear Hb. simpl.
        split; [done|]. right. f_equal.
        unfold ov_children in Hin.
        repeat (apply elem_of_cons in Hin as [Hin|Hin]);
          try (by apply elem_of_nil in Hin); inversion Hin; subst; clear Hin.
        * by inversion Heq.
        * simpl in Hl. rewrite Page_children_untagged in Hl.
          { by inversion Hl. }
          by rewrite (any_tag_ext s p).
        * simpl in Hl. rewrite Page_children_untagged in Hl.
          { by inversion Hl. }
          by rewrite (any_tag_ext s p).
        * by inversion Hl.
      + by inversion Hb; subst.
    - simpl. destruct (url_is self "scp-1047-j"); simpl; rewrite Hus, Htp; auto. }
  unfold children. destruct Hc as [-> | ->]; [|done].
  by apply Page_children_untagged.
Qed.

(** C6. A page whose url has an entry in [ov_children] answers
    [children()] with the list the entry's function built when the page
    was made: the pages of the numeric range, the children the method
    resolves less the one of the excluded url, or no page at all.  The
    method [Page.children] is not consulted again, whatever it gives. *)
Theorem C6_children_override f partial_url func p :
  (partial_url, func) ∈ ov_children →
  Page_init sn (S f) (Some (site +:+ "/" +:+ partial_url)) = Ok p →
  ∃ new_children,
    (∀ fuel, children sn fuel p = Ok new_children) ∧
    match func with
    | _inrange x =>
        map_gen (λ n, Page_init sn f
                        (Some (site +:+ "/" +:+ partial_url +:+ "-" +:+ str_of_nat n)))
                x = Ok new_children
    | _except x =>
        ∃ cs, Page_children (λ u, Page_init sn f (Some u)) p = Ok cs ∧
              new_children =
                List.filter (λ c, negb (bool_decide (url c = Some (site +:+ "/" +:+ x)))) cs
    | list_empty => new_children = []
    end.
Proof.
  simpl. intros Hin H. inv_bind H as self E.
  apply parse_record_authors in E as (Hus & Hcs & _).
  pose proof (_override_meta _ _ _ H) as (Hup & _ & _ & Htp & Hrp & _).
  unfold _override in H.
  set (mk := λ u, Page_init sn f (Some u)) in *.
  set (s0 := fold_left _ ov_data self) in *.
  assert (url s0 = url self ∧ tags s0 = tags self ∧ _raw_html s0 = _raw_html self)
    as (Hu0 & Ht0 & Hr0).
  { subst s0. simpl. by destruct (url_is self _). }
  destruct (override_loop mk (site +:+ "/" +:+ partial_url) ov_children s0 p)
    as [Hyes _]; [|congruence|done|].
  { by apply (bool_decide_unpack _); vm_compute. }
  destruct (Hyes _ _ Hin eq_refl) as (l & Hl & Hp).
  exists l. split; [by unfold children; rewrite Hp|].
  rewrite (call_ov_ext mk s0 p) in Hl by congruence.
  destruct func; simpl in Hl.
  - by rewrite <- Hup, Hus in Hl.
  - inv_bind Hl as cs Hcsl. injection Hl as <-. by exists cs.
  - by injection Hl.
Qed.
End Overrides.

(* ===================================================================== *)
(** ** [links] *)
(* ===================================================================== *)

Lemma dedup_first_snoc l x :
  dedup_first (l ++ [x]) = add_new (dedup_first l) x.
Proof.
  unfold dedup_first, add_new. rewrite reverse_app. simpl.
  rewrite (bool_decide_ext (x ∈ reverse (remove_dups (reverse l))) (x ∈ reverse l))
    by (by rewrite elem_of_reverse, elem_of_remove_dups).
  destruct (decide_rel elem_of x (reverse l)) as [Hin|Hin].
  - by rewrite bool_decide_eq_true_2.
  - rewrite bool_decide_eq_false_2 by done. by rewrite reverse_cons.
Qed.

Lemma fold_add_new l : fold_left add_new l [] = dedup_first l.
Proof.
  induction l as [|x l IH] using rev_ind; [done|].
  by rewrite fold_left_app, dedup_first_snoc, <- IH.
Qed.

Lemma links_body_spec acc a :
  get_str "href" a ≠ Some "" →
  links_body acc a =
    Ok (fold_left add_new
          (map address (List.filter kept (omap (get_str "href") [a]))) acc).
Proof.
  intros Hne. unfold links_body. simpl omap.
  destruct (get_str "href" a) as [href|]; [|reflexivity].
  destruct href as [|c href]; [by destruct Hne|].
  fold (address (String c href)).
  unfold List.filter, kept, internal, image_file.
  destruct (bool_decide (c = "/"%char)); [|reflexivity].
  destruct (bool_decide (last_chars 4 _ ∈ _)); [reflexivity|].
  cbn [negb andb map fold_left]. unfold add_new.
  by destruct (bool_decide (_ ∈ acc)).
Qed.

Lemma links_loop_spec l acc :
  (∀ a, a ∈ l → get_str "href" a ≠ Some "") →
  for_each links_body l acc =
    Ok (fold_left add_new
          (map address (List.filter kept (omap (get_str "href") l))) acc).
Proof.
  revert acc. induction l as [|a l IH]; intros acc Hne; [done|].
  simpl for_each. rewrite links_body_spec by (apply Hne; left).
  unfold bind. rewrite IH by (intros b Hb; apply Hne; by right).
  f_equal. change (a :: l) with ([a] ++ l)%list.
  rewrite (omap_app _ [a] l), List.filter_app, map_app, fold_left_app. done.
Qed.

(** C8. For a page none of whose content anchors has an empty [href],
    [links()] returns the addresses of the content region's anchors whose
    [href] begins with a slash and does not end in [.png], [.jpg] or
    [.gif], each with the site put in front and the trailing bars
    stripped, in order of first appearance and without duplicates; an
    [href] that does not begin with a slash is never included. *)
Theorem C8_links (self : Page) (doc : node) :
  _raw_html self = Some doc →
  (∀ a, a ∈ anchors doc → get_str "href" a ≠ Some "") →
  links self = Ok (dedup_first (map address (List.filter kept (hrefs doc))))
  ∧ ∀ ls u, links self = Ok ls → u ∈ ls →
      ∃ h, h ∈ hrefs doc ∧ internal h = true ∧ image_file h = false
           ∧ u = address h.
Proof.
  intros Hdoc Hne. unfold links. rewrite Hdoc.
  fold (anchors doc). rewrite links_loop_spec by done. rewrite fold_add_new.
  split; [done|]. intros ls u [= <-] Hu.
  unfold dedup_first in Hu.
  rewrite elem_of_reverse, elem_of_remove_dups, elem_of_reverse in Hu.
  rewrite list_elem_of_In in Hu.
  apply in_map_iff in Hu as (h & <- & Hh).
  apply filter_In in Hh as [Hh Hk]. apply andb_true_iff in Hk as [Hi Him].
  exists h. rewrite list_elem_of_In. by rewrite negb_true_iff in Him.
Qed.

(* ===================================================================== *)
(** ** [children] of a hub *)
(* ===================================================================== *)

Lemma backlinks_confirmed self c :
  is_ok (backlinks self c) = true → backlinks self c = Ok (confirmed self c).
Proof.
  unfold backlinks, confirmed, last_crumb.
  destruct (links c) as [ls|e]; [|done]. simpl.
  destruct (url self) as [u|].
  - rewrite (bool_decide_ext (Some u ∈ map Some ls) (u ∈ ls)).
    2:{ rewrite !list_elem_of_In, in_map_iff. split.
        - by intros (x & [= ->] & ?).
        - intros ?. by exists u. }
    destruct (bool_decide (u ∈ ls)); [done|]. simpl.
    destruct (_raw_html c) as [doc|]; [|done]. simpl.
    destruct (list.last _) as [crumb|]; [|done]. simpl.
    destruct (get_str "href" crumb) as [href|]; [|done]. simpl. intros _.
    f_equal. apply bool_decide_ext. split; congruence.
  - assert (None ∉ map Some ls) as Hno.
    { rewrite list_elem_of_In, in_map_iff. by intros (x & ? & ?). }
    rewrite (bool_decide_eq_false_2 _ Hno).
    destruct (_raw_html c) as [doc|]; [|done]. simpl.
    destruct (list.last _) as [crumb|]; [|done].
    by destruct (get_str "href" crumb) as [href|].
Qed.

Section Hub.
Context {ext : External} (sn : Snapshot.t).

(** C2. For a page tagged hub and also tale or goi2014, tagged neither
    scp nor splash, and without a children override: with the pages
    behind its links resolved and the tag-matched ones among them as
    candidates, in link order, a candidate is confirmed iff the hub's
    url is among the candidate's links or the candidate's last
    breadcrumb leads to the hub's url (the check raising on none of
    them); [children()] returns the confirmed candidates, in order,
    when there is one, and all the candidates otherwise. *)
Theorem C2_hub_children fuel self lpages :
  has_tag self "hub" = true →
  any_tag self ["tale"; "goi2014"] = true →
  any_tag self ["scp"; "splash"] = false →
  children_attr self = None →
  resolved (λ u, Page_init sn fuel (Some u)) self = Ok lpages →
  (∀ c, c ∈ List.filter tag_matched lpages → is_ok (backlinks self c) = true) →
  children sn fuel self =
    Ok (if existsb (confirmed self) (List.filter tag_matched lpages)
        then List.filter (confirmed self) (List.filter tag_matched lpages)
        else List.filter tag_matched lpages).
Proof.
  intros Hhub Htale Hscp Hov Hres Hback.
  unfold children. rewrite Hov. unfold Page_children.
  assert (∃ ts, tags self = Some ts) as [ts Hts].
  { unfold has_tag in Hhub. destruct (tags self); [eauto|].
    by apply bool_decide_eq_true_1, elem_of_nil in Hhub. }
  rewrite Hts.
  assert (any_tag self ["scp"; "hub"; "goi2014"; "splash"] = true) as ->.
  { unfold any_tag. simpl. rewrite Hhub. by destruct (has_tag self "scp"). }
  simpl negb. cbv iota. unfold resolved in Hres.
  inv_bind Hres as ls Hls. rewrite Hls.
  cbn [mbind result_bind Py.bind]. rewrite Hres.
  cbn [mbind result_bind Py.bind]. rewrite Hscp, Hhub, Htale.
  cbn [andb]. fold tag_matched.
  rewrite (any_gen_total _ (confirmed self)).
  2:{ intros c Hc. by apply backlinks_confirmed, Hback. }
  cbn [mbind result_bind Py.bind]. destruct (existsb _ _); [|done].
  apply filter_gen_total. intros c Hc. by apply backlinks_confirmed, Hback.
Qed.
End Hub.

(* ===================================================================== *)
(** ** The document tree: identities *)
(* ===================================================================== *)

(** Induction on a tree, with the hypothesis for every child. *)
Lemma node_ind' (P : node → Prop) :
  (∀ s, P (Text s)) →
  (∀ i nm a ks, Forall P ks → P (Elem i nm a ks)) →
  ∀ n, P n.
Proof.
  intros HT HE. fix IH 1. intros [s|i nm a ks]; [apply HT|].
  apply HE. induction ks as [|k ks IHks]; constructor; [apply IH | apply IHks].
Qed.

Lemma first_some_cons {A} (o : option A) l :
  first_some (o :: l) = match o with Some x => Some x | None => first_some l end.
Proof. by destruct o. Qed.

Lemma first_some_all_None {A} (l : list (option A)) :
  Forall (λ o, o = None) l → first_some l = None.
Proof.
  induction 1 as [|o l -> _ IH]; [done|]. by rewrite first_some_cons.
Qed.

Lemma is_id_true i n : is_id i n = true ↔ nid n = Some i.
Proof.
  destruct n as [|j]; simpl; [done|]. rewrite bool_decide_eq_true.
  split; [by intros ->|by intros [= ->]].
Qed.

Lemma find_list_None i ks :
  i ∉ flat_map all_ids ks → Forall (λ k, i ∉ all_ids k → find i k = None) ks →
  first_some (map (find i) ks) = None.
Proof.
  intros Hi HF. apply first_some_all_None. rewrite Forall_map.
  induction HF as [|k ks Hk _ IH]; constructor.
  - apply Hk. simpl in Hi. set_solver.
  - apply IH. simpl in Hi. set_solver.
Qed.

Lemma find_None i n : i ∉ all_ids n → find i n = None.
Proof.
  induction n as [s|j nm a ks IH] using node_ind'; [done|].
  simpl. intros Hi. rewrite decide_False by set_solver.
  apply find_list_None; [set_solver|done].
Qed.

Lemma lookup_None sp i : i ∉ soup_ids sp → lookup sp i = None.
Proof.
  intros Hi. apply find_list_None; [done|].
  apply Forall_forall. intros k _. apply find_None.
Qed.

Lemma find_Some i n m : find i n = Some m → nid m = Some i ∧ i ∈ all_ids n.
Proof.
  revert m. induction n as [s|j nm a ks IH] using node_ind'; [done|].
  simpl. intros m. case_decide as Hij.
  - intros [= <-]. subst. split; [done|left].
  - intros H. induction IH as [|k ks Hk _ IHks]; [done|].
    simpl in H. rewrite first_some_cons in H.
    destruct (find i k) as [m'|] eqn:Ek.
    + injection H as ->. destruct (Hk m eq_refl) as [? ?].
      split; [done|]. simpl. set_solver.
    + destruct (IHks H) as [? Hin]. split; [done|]. simpl in *. set_solver.
Qed.

Lemma lookup_Some sp i m : lookup sp i = Some m → nid m = Some i ∧ i ∈ soup_ids sp.
Proof.
  unfold lookup, soup_ids. induction (roots sp) as [|r rs IH]; [done|].
  simpl. rewrite first_some_cons. destruct (find i r) as [m'|] eqn:Er.
  - intros [= ->]. apply find_Some in Er as [? ?]. set_solver.
  - intros H. destruct (IH H). set_solver.
Qed.

(** *** Removal *)






(** *** Ancestors *)







(** *** In-place changes *)

Lemma first_some_fmap {A B} (f : A → B) (l : list (option A)) :
  first_some (map (fmap f) l) = f <$> first_some l.
Proof.
  induction l as [|o l IH]; [done|]. simpl. rewrite !first_some_cons.
  by destruct o.
Qed.








(** A tag that outlives a removal keeps its attributes. *)
Lemma attrs_of_remove p n : attrs_of (remove p n) = attrs_of n.
Proof. by destruct n. Qed.




(* ===================================================================== *)
(** ** Image resolution *)
(* ===================================================================== *)










(* ===================================================================== *)
(** ** The document tree: every tag of a soup *)
(* ===================================================================== *)

Lemma nodes_Elem i nm a ks :
  nodes (Elem i nm a ks) = Elem i nm a ks :: flat_map nodes ks.
Proof. reflexivity. Qed.

Lemma Forall_flat_map_nodes (Q : node → Prop) ks :
  Forall Q (flat_map nodes ks) ↔ Forall (λ k, Forall Q (nodes k)) ks.
Proof.
  induction ks as [|k ks IH]; cbn [flat_map].
  - split; constructor.
  - split.
    + intros [? ?]%Forall_app. constructor; [done|by apply IH].
    + intros [? ?]%list.Forall_cons. apply Forall_app. split; [done|by apply IH].
Qed.

Lemma elem_of_flat_map {A B} (f : A → list B) (l : list A) (y : B) :
  y ∈ flat_map f l ↔ ∃ x, x ∈ l ∧ y ∈ f x.
Proof.
  rewrite list_elem_of_In, in_flat_map. split; intros (x & ? & ?); exists x.
  - by rewrite !list_elem_of_In.
  - by rewrite <- !list_elem_of_In.
Qed.

Lemma nodes_sub m n : m ∈ nodes n → ∀ x, x ∈ nodes m → x ∈ nodes n.
Proof.
  induction n as [s|j nm a ks IH] using node_ind'.
  - unfold nodes at 1. simpl. intros ?%list_elem_of_singleton. by subst.
  - rewrite nodes_Elem. intros Hm x Hx. apply elem_of_cons in Hm as [->|Hm].
    { by rewrite nodes_Elem in Hx. }
    right. apply elem_of_flat_map in Hm as (k & Hk & Hm).
    apply elem_of_flat_map. exists k. split; [done|].
    rewrite list.Forall_forall in IH. by apply (IH k).
Qed.

Lemma find_in_nodes i n m : find i n = Some m → m ∈ nodes n.
Proof.
  induction n as [s|j nm a ks IH] using node_ind'; [done|].
  simpl. case_decide as Hd.
  - intros [= <-]. by left.
  - intros Hf. rewrite nodes_Elem. right.
    induction IH as [|k ks Hk _ IHks]; [done|]. cbn [flat_map map] in *.
    rewrite first_some_cons in Hf. rewrite elem_of_app.
    destruct (find i k); [left; apply Hk; congruence|right; by apply IHks].
Qed.

Lemma lookup_in_all_nodes sp i m : lookup sp i = Some m → m ∈ all_nodes sp.
Proof.
  unfold lookup, all_nodes. induction (roots sp) as [|r rs IH]; [done|].
  cbn [flat_map map]. rewrite first_some_cons, elem_of_app.
  destruct (find i r) eqn:E.
  - intros [= <-]. left. by eapply find_in_nodes.
  - intros H. right. by apply IH.
Qed.

Lemma lookup_nodes (Q : node → Prop) sp i m :
  lookup sp i = Some m → Forall Q (all_nodes sp) → Forall Q (nodes m).
Proof.
  intros Hm HQ. apply list.Forall_forall. intros x Hx.
  rewrite list.Forall_forall in HQ. apply HQ.
  apply lookup_in_all_nodes in Hm. unfold all_nodes in *.
  apply elem_of_flat_map in Hm as (r & Hr & Hm).
  apply elem_of_flat_map. exists r. split; [done|]. by eapply nodes_sub.
Qed.

(** An identity in the soup belongs to one of its tags. *)
Lemma all_ids_nodes x n : x ∈ all_ids n → ∃ y, y ∈ nodes n ∧ nid y = Some x.
Proof.
  induction n as [s|j nm a ks IH] using node_ind'; [by intros ?%elem_of_nil|].
  simpl. intros [->|Hx]%elem_of_cons.
  - eexists. split; [by left|done].
  - apply elem_of_flat_map in Hx as (k & Hk & Hx).
    rewrite list.Forall_forall in IH.
    destruct (IH k Hk Hx) as (y & Hy & Hid).
    exists y. split; [|done]. rewrite nodes_Elem. right.
    apply elem_of_flat_map. by exists k.
Qed.

Lemma soup_ids_nodes x sp : x ∈ soup_ids sp → ∃ y, y ∈ all_nodes sp ∧ nid y = Some x.
Proof.
  unfold soup_ids, all_nodes. intros Hx.
  apply elem_of_flat_map in Hx as (r & Hr & Hx).
  destruct (all_ids_nodes x r Hx) as (y & Hy & Hid).
  exists y. split; [|done]. apply elem_of_flat_map. by exists r.
Qed.

Lemma nodes_ids y n : y ∈ nodes n → ∀ x, nid y = Some x → x ∈ all_ids n.
Proof.
  induction n as [s|j nm a ks IH] using node_ind'.
  - unfold nodes. simpl. intros ?%list_elem_of_singleton. by subst.
  - rewrite nodes_Elem. intros Hy x Hx. apply elem_of_cons in Hy as [->|Hy].
    + injection Hx as <-. by left.
    + simpl. right. apply elem_of_flat_map in Hy as (k & Hk & Hy).
      apply elem_of_flat_map. exists k. split; [done|].
      rewrite list.Forall_forall in IH. by apply (IH k).
Qed.

Lemma all_nodes_ids y sp : y ∈ all_nodes sp → ∀ x, nid y = Some x → x ∈ soup_ids sp.
Proof.
  unfold all_nodes, soup_ids. intros Hy x Hx.
  apply elem_of_flat_map in Hy as (r & Hr & Hy).
  apply elem_of_flat_map. exists r. split; [done|]. by eapply nodes_ids.
Qed.

(** *** What a change or a removal does to a property of every tag *)

Lemma Forall_nodes_update (Q Q' : node → Prop) i f n :
  (∀ s, Q' (Text s)) →
  (∀ j nm a ks, j ≠ i → Q (Elem j nm a ks) →
     Q' (Elem j nm a (map (update i f) ks))) →
  (∀ nm a ks, Q (Elem i nm a ks) →
     Forall Q' (flat_map nodes (map (update i f) ks)) →
     Forall Q' (nodes (f (Elem i nm a (map (update i f) ks))))) →
  Forall Q (nodes n) → Forall Q' (nodes (update i f n)).
Proof.
  intros HT H2 H3. induction n as [s|j nm a ks IH] using node_ind'.
  - intros _. unfold nodes. simpl. by repeat constructor.
  - rewrite nodes_Elem, list.Forall_cons. intros [Hq Hks].
    assert (Forall Q' (flat_map nodes (map (update i f) ks))) as Hks'.
    { rewrite Forall_flat_map_nodes in Hks. rewrite Forall_flat_map_nodes, Forall_map.
      rewrite list.Forall_forall in IH, Hks. apply list.Forall_forall.
      intros k Hk. auto. }
    simpl. case_decide as Hij.
    + subst j. by apply H3.
    + rewrite nodes_Elem. constructor; [by apply H2|done].
Qed.

Lemma Forall_all_nodes_modify (Q Q' : node → Prop) i f sp :
  (∀ s, Q' (Text s)) →
  (∀ j nm a ks, j ≠ i → Q (Elem j nm a ks) →
     Q' (Elem j nm a (map (update i f) ks))) →
  (∀ nm a ks, Q (Elem i nm a ks) →
     Forall Q' (flat_map nodes (map (update i f) ks)) →
     Forall Q' (nodes (f (Elem i nm a (map (update i f) ks))))) →
  Forall Q (all_nodes sp) → Forall Q' (all_nodes (modify i f sp)).
Proof.
  intros HT H2 H3. unfold all_nodes, modify. simpl.
  rewrite !Forall_flat_map_nodes, Forall_map. intros H.
  eapply list.Forall_impl; [exact H|]. intros r. by apply Forall_nodes_update.
Qed.

Lemma Forall_nodes_remove_list (Q Q' : node → Prop) c ks :
  Forall (λ k, Forall Q (nodes k) → Forall Q' (nodes (remove c k))) ks →
  Forall Q (flat_map nodes ks) → Forall Q' (flat_map nodes (remove_list c ks)).
Proof.
  induction 1 as [|k ks Hk _ IH]; [done|]. unfold remove_list.
  cbn [flat_map]. fold (remove_list c ks).
  rewrite Forall_app. intros [Hq Hks]. destruct (is_id c k); cbn [app flat_map].
  - by apply IH.
  - rewrite Forall_app. split; [by apply Hk|by apply IH].
Qed.

Lemma Forall_nodes_remove (Q Q' : node → Prop) c n :
  (∀ s, Q' (Text s)) →
  (∀ j nm a ks, Q (Elem j nm a ks) → Q' (Elem j nm a (remove_list c ks))) →
  Forall Q (nodes n) → Forall Q' (nodes (remove c n)).
Proof.
  intros HT HE. induction n as [s|j nm a ks IH] using node_ind'.
  - intros _. unfold nodes. simpl. by repeat constructor.
  - rewrite nodes_Elem, list.Forall_cons. intros [Hq Hks].
    simpl. fold (remove_list c ks). rewrite nodes_Elem.
    constructor; [by apply HE|]. by apply (Forall_nodes_remove_list Q).
Qed.

Lemma Forall_all_nodes_decompose (Q Q' : node → Prop) c sp :
  (∀ s, Q' (Text s)) →
  (∀ j nm a ks, Q (Elem j nm a ks) → Q' (Elem j nm a (remove_list c ks))) →
  Forall Q (all_nodes sp) → Forall Q' (all_nodes (decompose sp c)).
Proof.
  intros HT HE. unfold all_nodes, decompose. simpl.
  fold (remove_list c (roots sp)). apply Forall_nodes_remove_list.
  apply list.Forall_forall. intros k _. by apply Forall_nodes_remove.
Qed.

(** *** Tags that are not there *)

Lemma update_absent i f n : i ∉ all_ids n → update i f n = n.
Proof.
  induction n as [s|j nm a ks IH] using node_ind'; [done|].
  simpl. intros Hi. apply not_elem_of_cons in Hi as [Hij Hi].
  rewrite decide_False by done. f_equal.
  induction IH as [|k ks Hk _ IHks]; [done|]. simpl in *.
  apply not_elem_of_app in Hi as [? ?]. by rewrite Hk, IHks.
Qed.

Lemma map_update_absent i f rs : i ∉ flat_map all_ids rs → map (update i f) rs = rs.
Proof.
  induction rs as [|r rs IH]; [done|]. simpl.
  intros [? ?]%not_elem_of_app. by rewrite update_absent, IH.
Qed.

Lemma remove_absent i n : i ∉ all_ids n → remove i n = n.
Proof.
  induction n as [s|j nm a ks IH] using node_ind'; [done|].
  simpl. intros Hi. apply not_elem_of_cons in Hi as [Hij Hi]. f_equal.
  induction IH as [|k ks Hk _ IHks]; [done|]. simpl in *.
  apply not_elem_of_app in Hi as [Hk1 ?].
  assert (is_id i k = false) as ->.
  { destruct k as [|j']; [done|]. simpl in *. apply bool_decide_eq_false.
    intros ->. apply Hk1. by left. }
  simpl. by rewrite Hk, IHks.
Qed.

Lemma remove_list_absent i rs : i ∉ flat_map all_ids rs → remove_list i rs = rs.
Proof.
  induction rs as [|r rs IH]; [done|]. unfold remove_list. simpl.
  intros [Hr ?]%not_elem_of_app.
  assert (is_id i r = false) as ->.
  { destruct r as [|j']; [done|]. simpl in *. apply bool_decide_eq_false.
    intros ->. apply Hr. by left. }
  simpl. f_equal; [by apply remove_absent|by apply IH].
Qed.

Lemma lookup_app rs rs' fr i :
  lookup (Soup (rs ++ rs') fr) i =
    match lookup (Soup rs fr) i with
    | Some m => Some m
    | None => lookup (Soup rs' fr) i
    end.
Proof.
  unfold lookup. simpl. induction rs as [|r rs IH]; [done|]. simpl.
  rewrite !first_some_cons. by destruct (find i r).
Qed.

Lemma find_is_Some i n : i ∈ all_ids n → is_Some (find i n).
Proof.
  induction n as [s|j nm a ks IH] using node_ind'; [by intros ?%elem_of_nil|].
  simpl. intros Hi. case_decide as Hd; [by eexists|].
  apply elem_of_cons in Hi as [?|Hi]; [done|].
  induction IH as [|k ks Hk _ IHks]; [by apply elem_of_nil in Hi|].
  cbn [flat_map map] in *. rewrite first_some_cons.
  apply elem_of_app in Hi as [Hi|Hi].
  - by destruct (Hk Hi) as [m ->].
  - destruct (find i k); [by eexists|]. by apply IHks.
Qed.

Lemma lookup_is_Some sp i : i ∈ soup_ids sp → is_Some (lookup sp i).
Proof.
  unfold lookup, soup_ids. induction (roots sp) as [|r rs IH];
    [by intros ?%elem_of_nil|].
  cbn [flat_map map]. rewrite first_some_cons. intros [Hi|Hi]%elem_of_app.
  - by destruct (find_is_Some i r Hi) as [m ->].
  - destruct (find i r); [by eexists|]. by apply IH.
Qed.

Lemma lookup_None_nodes sp i y :
  lookup sp i = None → y ∈ all_nodes sp → nid y ≠ Some i.
Proof.
  intros Hnone Hy Hid. apply (all_nodes_ids y sp Hy) in Hid.
  apply lookup_is_Some in Hid as [m Hm]. congruence.
Qed.

(* ===================================================================== *)
(** ** Tab views: where the title blocks are *)
(* ===================================================================== *)

Lemma title_like_tag n m :
  name n = name m → attrs_of n = attrs_of m → title_like n = title_like m.
Proof. unfold title_like. by intros -> ->. Qed.

Lemma update_tag_other i f k :
  is_id i k = false →
  nid (update i f k) = nid k ∧ name (update i f k) = name k
  ∧ attrs_of (update i f k) = attrs_of k.
Proof.
  destruct k as [s|j nm a ks]; [done|]. simpl. intros Hd.
  apply bool_decide_eq_false in Hd. by rewrite decide_False.
Qed.

Lemma update_tag_keep i f k :
  keeps_tag f →
  nid (update i f k) = nid k ∧ name (update i f k) = name k
  ∧ attrs_of (update i f k) = attrs_of k.
Proof.
  intros Hf. destruct k as [s|j nm a ks]; [done|]. simpl.
  case_decide; [|done]. apply (Hf (Elem j nm a _)).
Qed.

Lemma remove_tag c k :
  nid (remove c k) = nid k ∧ name (remove c k) = name k
  ∧ attrs_of (remove c k) = attrs_of k.
Proof. by destruct k. Qed.

Lemma keeps_tag_set_contents (g : node → list node) :
  keeps_tag (λ n, set_contents (g n) n).
Proof. by intros []. Qed.

Lemma node_eqb_title x y : node_eqb x y = true → title_like x = title_like y.
Proof.
  destruct x as [s|i nm a ks], y as [t|j nm' a' ks']; simpl; try done.
  intros H. apply andb_true_iff in H as [H _].
  apply andb_true_iff in H as [Hn Ha].
  apply bool_decide_eq_true in Hn, Ha. by subst.
Qed.

(** A block that starts with a title block differs from one that holds
    none. *)
Lemma node_eqb_head lo hi y z :
  title_head lo hi y → no_title_kid z → node_eqb y z = false.
Proof.
  intros (t & ks & i & Hc & Ht & _) Hz.
  destruct y as [s|j nm a ks0], z as [s'|j' nm' a' ks1]; simpl in *; try done.
  subst ks0. destruct ks1 as [|h ks1]; [by rewrite andb_false_r|].
  apply list.Forall_cons in Hz as [Hh _].
  destruct (node_eqb t h) eqn:E.
  - apply node_eqb_title in E. congruence.
  - simpl. by rewrite andb_false_r.
Qed.

Lemma no_title_remove_list c ks :
  Forall (λ k, title_like k = false) ks →
  Forall (λ k, title_like k = false) (remove_list c ks).
Proof.
  induction 1 as [|k ks Hk _ IH]; [done|]. unfold remove_list.
  cbn [flat_map]. fold (remove_list c ks). destruct (is_id c k); [done|].
  constructor; [|done]. destruct (remove_tag c k) as (_ & ? & ?).
  by rewrite (title_like_tag _ k).
Qed.

Section Tabs.

(** The blocks of one tab view; the identities made for it start at
    [lo]. *)
Variable tabs : list nat.
Variable lo : nat.
Hypothesis tabs_lo : ∀ k, k ∈ tabs → k < lo.

Local Abbreviation good := (good tabs lo).
Local Abbreviation Inv := (Inv tabs lo).

Lemma good_Text P hi s : good P hi (Text s).
Proof. by intros j. Qed.

Lemma good_not_tab P hi j nm a ks : j ∉ tabs → good P hi (Elem j nm a ks).
Proof. intros Hj j' [= <-] ?. done. Qed.

Lemma good_map P hi j nm a nm' a' ks g :
  (∀ k, nid (g k) = nid k) →
  (∀ k, title_like k = false → title_like (g k) = false) →
  (∀ k i, nid k = Some i → lo ≤ i → title_like k = true →
          title_like (g k) = true) →
  good P hi (Elem j nm a ks) → good P hi (Elem j nm' a' (map g ks)).
Proof.
  intros Hid Hf Ht Hg j' [= <-] Hj. destruct (Hg j eq_refl Hj) as [HP HnP].
  split.
  - intros Hin. destruct (HP Hin) as (t & ks' & i & Hc & Htl & Hi & Hlo).
    simpl in Hc. subst ks. exists (g t), (map g ks'), i.
    split; [done|]. split; [by apply (Ht t i); [|lia|]|].
    by rewrite Hid.
  - intros Hin. specialize (HnP Hin). unfold no_title_kid in *. simpl in *.
    rewrite Forall_map. eapply list.Forall_impl; [exact HnP|]. auto.
Qed.

Lemma good_remove_list P hi j nm a ks c :
  c < lo ∨ hi ≤ c →
  good P hi (Elem j nm a ks) → good P hi (Elem j nm a (remove_list c ks)).
Proof.
  intros Hc Hg j' [= <-] Hj. destruct (Hg j eq_refl Hj) as [HP HnP].
  split.
  - intros Hin. destruct (HP Hin) as (t & ks' & i & Hcs & Htl & Hi & Hlo).
    simpl in Hcs. subst ks.
    exists (remove c t), (remove_list c ks'), i.
    assert (is_id c t = false) as Hct.
    { destruct (is_id c t) eqn:E; [|done]. apply is_id_true in E.
      rewrite Hi in E. injection E as ->. lia. }
    destruct (remove_tag c t) as (Hn1 & Hn2 & Hn3).
    split; [|split; [|by rewrite Hn1]].
    + simpl. unfold remove_list. simpl. by rewrite Hct.
    + by rewrite (title_like_tag _ t).
  - intros Hin. specialize (HnP Hin). by apply no_title_remove_list.
Qed.

Lemma good_mono P hi hi' y : hi ≤ hi' → good P hi y → good P hi' y.
Proof.
  intros Hhi Hg j Hj Hin. destruct (Hg j Hj Hin) as [HP HnP].
  split; [|done]. intros HjP.
  destruct (HP HjP) as (t & ks & i & ? & ? & ? & ?).
  exists t, ks, i. repeat split; [done..|lia|lia].
Qed.

Lemma bounded_mono b b' y : b ≤ b' → bounded b y → bounded b' y.
Proof. intros Hb Hy j Hj. specialize (Hy j Hj). lia. Qed.

(** The properties of every tag, across the operations of the loop. *)

Lemma bounded_modify b i f sp :
  (∀ nm a ks, nid (f (Elem i nm a ks)) = Some i) →
  (∀ nm a ks, Forall (bounded b) (flat_map nodes ks) →
     Forall (bounded b) (flat_map nodes (contents (f (Elem i nm a ks))))) →
  Forall (bounded b) (all_nodes sp) → Forall (bounded b) (all_nodes (modify i f sp)).
Proof.
  intros Hid Hks. apply Forall_all_nodes_modify.
  - by intros s j.
  - intros j nm a ks _ Hb j' [= <-]. by apply (Hb j).
  - intros nm a ks Hb Hk. specialize (Hid nm a (map (update i f) ks)).
    specialize (Hks nm a _ Hk).
    destruct (f _) as [|i' nm' a' ks']; [done|]. injection Hid as ->.
    rewrite nodes_Elem. constructor; [|done]. intros j' [= <-]. by apply (Hb i).
Qed.

Lemma bounded_decompose b c sp :
  Forall (bounded b) (all_nodes sp) → Forall (bounded b) (all_nodes (decompose sp c)).
Proof.
  apply Forall_all_nodes_decompose; [by intros s j|].
  intros j nm a ks Hb j' [= <-]. by apply (Hb j).
Qed.

Lemma good_decompose P hi c sp :
  c < lo ∨ hi ≤ c →
  Forall (good P hi) (all_nodes sp) → Forall (good P hi) (all_nodes (decompose sp c)).
Proof.
  intros Hc. apply Forall_all_nodes_decompose; [apply good_Text|].
  intros j nm a ks. by apply good_remove_list.
Qed.

Lemma Inv_decompose P hi c sp :
  c < lo ∨ hi ≤ c → Inv P hi sp → Inv P hi (decompose sp c).
Proof.
  intros Hc [Hb Hg Hhi Hlo]. split; [| |done..].
  - by apply bounded_decompose.
  - by apply good_decompose.
Qed.

(** [k.attrs = {"class": "tabview-tab"}] *)
Lemma Inv_reset_attrs P hi k sp :
  k < lo → Inv P hi sp →
  Inv P hi (modify k (map_attrs (λ _, class_attr (AStr "tabview-tab"))) sp).
Proof.
  intros Hk [Hb Hg Hhi Hlo].
  set (f := map_attrs (λ _, class_attr (AStr "tabview-tab"))).
  assert (∀ j nm a nm' a' ks, good P hi (Elem j nm a ks) →
            good P hi (Elem j nm' a' (map (update k f) ks))) as Hmap.
  { intros j nm a nm' a' ks. apply good_map.
    - intros k0. destruct (is_id k k0) eqn:E.
      + destruct k0 as [|j0 nm0 a0 ks0]; [done|]. simpl in *.
        apply bool_decide_eq_true in E. subst. by rewrite decide_True.
      + by apply update_tag_other.
    - intros k0 Hf. destruct (is_id k k0) eqn:E.
      + destruct k0 as [|j0 nm0 a0 ks0]; [done|]. simpl in *.
        apply bool_decide_eq_true in E. subst. rewrite decide_True by done.
        unfold title_like. simpl. apply bool_decide_eq_false. by intros [_ ?].
      + destruct (update_tag_other k f k0 E) as (_ & ? & ?).
        by rewrite (title_like_tag _ k0).
    - intros k0 i Hi Hlo' Ht.
      assert (is_id k k0 = false) as E.
      { destruct (is_id k k0) eqn:E; [|done]. apply is_id_true in E.
        rewrite Hi in E. injection E as ->. lia. }
      destruct (update_tag_other k f k0 E) as (_ & ? & ?).
      by rewrite (title_like_tag _ k0). }
  split; [| |done..].
  - apply bounded_modify; [done| |done]. by intros nm a ks.
  - revert Hg. apply Forall_all_nodes_modify; [apply good_Text| |].
    + intros j nm a ks _. apply Hmap.
    + intros nm a ks Hq Hks. simpl. rewrite nodes_Elem.
      constructor; [|done]. by apply (Hmap k nm a).
Qed.

(** [soup.new_tag(...)] *)
Lemma Inv_new_tag P hi nm a sp :
  Inv P hi sp → Inv P hi (new_tag sp nm a).1.
Proof.
  intros [Hb Hg Hhi Hlo]. split; simpl; [| |lia|done].
  - unfold all_nodes. simpl. rewrite flat_map_app, Forall_app. split.
    + eapply list.Forall_impl; [exact Hb|]. intros y. apply bounded_mono. lia.
    + unfold nodes. simpl. constructor; [|constructor].
      intros j' [= <-]. lia.
  - unfold all_nodes. simpl. rewrite flat_map_app, Forall_app. split; [done|].
    unfold nodes. simpl. constructor; [|constructor]. apply good_not_tab.
    intros Hin%tabs_lo. lia.
Qed.

Lemma good_cons_other P hi k y :
  nid y ≠ Some k → good P hi y → good (k :: P) hi y.
Proof.
  intros Hk Hg j Hj Hin. destruct (Hg j Hj Hin) as [HP HnP]. split.
  - intros [->|?]%elem_of_cons; [congruence|auto].
  - intros Hn. apply HnP. intros ?. apply Hn. by right.
Qed.

Lemma good_ext P P' hi y :
  (∀ j, j ∈ P ↔ j ∈ P') → good P hi y → good P' hi y.
Proof.
  intros HPP Hg j Hj Hin. destruct (Hg j Hj Hin) as [HP HnP].
  split; intros ?; [apply HP|apply HnP]; by rewrite HPP.
Qed.

Lemma fresh_absent P hi sp : Inv P hi sp → fresh sp ∉ soup_ids sp.
Proof.
  intros [Hb _ _ _] Hin. apply soup_ids_nodes in Hin as (y & Hy & Hid).
  rewrite list.Forall_forall in Hb. specialize (Hb y Hy (fresh sp) Hid). lia.
Qed.

Lemma Forall_flat_nodes_insert_at (Q : node → Prop) pos cn ks :
  Forall Q (nodes cn) → Forall Q (flat_map nodes ks) →
  Forall Q (flat_map nodes (insert_at pos cn ks)).
Proof.
  rewrite !Forall_flat_map_nodes. intros Hcn Hks. unfold insert_at.
  apply Forall_app. split; [by apply Forall_take|].
  constructor; [done|by apply Forall_drop].
Qed.

(** [wraper.append(k)], [k.insert(0, tab_title)]: the second half,
    putting a tag among the contents of one that is no block. *)
Lemma Inv_modify_insert P hi sp w pos cn :
  w ∉ tabs →
  Forall (bounded (fresh sp)) (nodes cn) → Forall (good P hi) (nodes cn) →
  Inv P hi sp →
  Inv P hi (modify w (λ n, set_contents (insert_at pos cn (contents n)) n) sp).
Proof.
  intros Hw Hcb Hcg [Hb Hg Hhi Hlo].
  set (f := λ n, set_contents (insert_at pos cn (contents n)) n).
  split; [| |done..].
  - apply bounded_modify; [done| |done]. intros nm a ks Hks. simpl.
    by apply Forall_flat_nodes_insert_at.
  - revert Hg. apply Forall_all_nodes_modify; [apply good_Text| |].
    + intros j nm a ks _. apply good_map.
      * intros k0. apply (update_tag_keep w f k0), keeps_tag_set_contents.
      * intros k0 Hf.
        destruct (update_tag_keep w f k0 (keeps_tag_set_contents _)) as (_ & ? & ?).
        by rewrite (title_like_tag _ k0).
      * intros k0 i _ _ Ht.
        destruct (update_tag_keep w f k0 (keeps_tag_set_contents _)) as (_ & ? & ?).
        by rewrite (title_like_tag _ k0).
    + intros nm a ks _ Hks. simpl. rewrite nodes_Elem.
      constructor; [by apply good_not_tab|].
      by apply Forall_flat_nodes_insert_at.
Qed.

Lemma Inv_insert P hi sp w pos c :
  w ∉ tabs → c < lo ∨ hi ≤ c → Inv P hi sp → Inv P hi (insert sp w pos c).
Proof.
  intros Hw Hc HI. unfold insert.
  destruct (lookup sp c) as [cn|] eqn:Ec; [|done].
  destruct (lookup sp w) as [pn|] eqn:Ew; [|done].
  apply Inv_modify_insert; [done| | |by apply Inv_decompose].
  - apply (lookup_nodes _ sp c); [done|]. apply HI.
  - apply (lookup_nodes _ sp c); [done|]. apply HI.
Qed.

Lemma Inv_append P hi sp w k :
  w ∉ tabs → k < lo → Inv P hi sp → Inv P hi (append sp w k).
Proof.
  intros Hw Hk HI. unfold append. destruct (lookup sp w); [|done].
  apply Inv_insert; auto.
Qed.

Lemma fresh_insert sp p pos c : fresh (insert sp p pos c) = fresh sp.
Proof. unfold insert. by repeat case_match. Qed.

Lemma fresh_append sp w k : fresh (append sp w k) = fresh sp.
Proof. unfold append. case_match; [apply fresh_insert|done]. Qed.

Lemma title_made sp txt :
  fresh sp ∉ soup_ids sp →
  set_string (new_tag sp "div" (new_class "tab-title")).1 (fresh sp) txt
  = Soup (roots sp ++ [title_block (fresh sp) txt]) (S (fresh sp)).
Proof.
  intros Hf. unfold set_string, new_tag. simpl. rewrite lookup_app.
  rewrite (lookup_None (Soup (roots sp) _)) by done.
  unfold lookup at 1. simpl. rewrite decide_True by done.
  unfold first_some. simpl. unfold modify. simpl.
  rewrite map_app, map_update_absent by done. simpl.
  rewrite decide_True by done. by rewrite app_nil_r.
Qed.

Lemma title_inserted sp k txt :
  fresh sp ∉ soup_ids sp → k ≠ fresh sp →
  insert (Soup (roots sp ++ [title_block (fresh sp) txt]) (S (fresh sp)))
         k 0 (fresh sp)
  = match lookup sp k with
    | Some _ =>
        modify k (λ n, set_contents (title_block (fresh sp) txt :: contents n) n)
               (Soup (roots sp) (S (fresh sp)))
    | None => Soup (roots sp ++ [title_block (fresh sp) txt]) (S (fresh sp))
    end.
Proof.
  intros Hf Hk. unfold insert. rewrite !lookup_app.
  rewrite (lookup_None (Soup (roots sp) _) (fresh sp)) by done.
  replace (lookup (Soup [title_block (fresh sp) txt] (S (fresh sp))) (fresh sp))
    with (Some (title_block (fresh sp) txt))
    by (unfold lookup; simpl; by rewrite decide_True).
  replace (lookup (Soup (roots sp) (S (fresh sp))) k) with (lookup sp k) by done.
  destruct (lookup sp k) as [pn|] eqn:Ek.
  - assert (∀ o : option nat,
              match o with
              | Some ci => if ci <? 0 `min` length (contents pn)
                           then 0 `min` length (contents pn) - 1
                           else 0 `min` length (contents pn)
              | None => 0 `min` length (contents pn)
              end = 0) as -> by (by intros [ci|]).
    unfold decompose, modify. simpl. f_equal.
    fold (remove_list (fresh sp) (roots sp ++ [title_block (fresh sp) txt])).
    unfold remove_list. rewrite flat_map_app.
    fold (remove_list (fresh sp) (roots sp)).
    rewrite remove_list_absent by done. simpl.
    rewrite bool_decide_eq_true_2 by done. by rewrite app_nil_r.
  - unfold lookup. simpl. rewrite decide_False by done. done.
Qed.

(** [k.insert(0, tab_title)]: the block [k] is done. *)
Lemma Inv_push_title P hi sp k txt :
  k ∈ tabs → Inv P hi sp →
  Inv (k :: P) (S (fresh sp))
      match lookup sp k with
      | Some _ =>
          modify k (λ n, set_contents (title_block (fresh sp) txt :: contents n) n)
                 (Soup (roots sp) (S (fresh sp)))
      | None => Soup (roots sp ++ [title_block (fresh sp) txt]) (S (fresh sp))
      end.
Proof.
  intros Hk [Hb Hg Hhi Hlo].
  set (t := fresh sp) in *.
  set (f := λ n, set_contents (title_block t txt :: contents n) n).
  assert (Forall (bounded (S t)) (nodes (title_block t txt))) as Hbt.
  { unfold nodes. simpl. constructor; [|constructor; [by intros j|constructor]].
    intros j [= <-]. lia. }
  assert (Forall (good (k :: P) (S t)) (nodes (title_block t txt))) as Hgt.
  { unfold nodes. simpl. constructor; [|constructor; [apply good_Text|constructor]].
    apply good_not_tab. intros Hin%tabs_lo. lia. }
  assert (Forall (bounded (S t)) (all_nodes sp)) as Hb'.
  { eapply list.Forall_impl; [exact Hb|]. intros y. apply bounded_mono. lia. }
  destruct (lookup sp k) as [pn|] eqn:Ek.
  - split; simpl; [| |lia..].
    + apply (bounded_modify (S t) k f (Soup (roots sp) (S t))); [done| |done].
      intros nm a ks Hks.
      change (Forall (bounded (S t)) (nodes (title_block t txt) ++ flat_map nodes ks)).
      by apply Forall_app.
    + revert Hg.
      apply (Forall_all_nodes_modify _ _ k f (Soup (roots sp) (S t)));
        [apply good_Text| |].
      * intros j nm a ks Hj Hq. apply good_cons_other; [by intros [= ->]|].
        apply (good_mono P hi); [lia|]. revert Hq. apply good_map.
        -- intros k0. apply (update_tag_keep k f k0), keeps_tag_set_contents.
        -- intros k0 Hf.
           destruct (update_tag_keep k f k0 (keeps_tag_set_contents _)) as (_ & ? & ?).
           by rewrite (title_like_tag _ k0).
        -- intros k0 i _ _ Ht.
           destruct (update_tag_keep k f k0 (keeps_tag_set_contents _)) as (_ & ? & ?).
           by rewrite (title_like_tag _ k0).
      * intros nm a ks _ Hks. simpl. rewrite nodes_Elem.
        constructor.
        -- intros j [= <-] _. split; [|intros Hn; exfalso; apply Hn; by left].
           intros _. exists (title_block t txt), (map (update k f) ks), t.
           repeat split; [lia|lia].
        -- change (Forall (good (k :: P) (S t))
                     (nodes (title_block t txt)
                      ++ flat_map nodes (map (update k f) ks))).
           by apply Forall_app.
  - split; simpl; [| |lia..].
    + unfold all_nodes. simpl. rewrite flat_map_app, Forall_app. split; [done|].
      cbn [flat_map]. by rewrite app_nil_r.
    + unfold all_nodes. simpl. rewrite flat_map_app, Forall_app. split.
      * apply list.Forall_forall. intros y Hy.
        apply good_cons_other; [by apply (lookup_None_nodes sp)|].
        apply (good_mono P hi); [lia|].
        rewrite list.Forall_forall in Hg. by apply Hg.
      * cbn [flat_map]. by rewrite app_nil_r.
Qed.

(** *** The index-of search *)

Lemma py_eq_done P hi sp j k :
  Inv P hi sp → j ∈ tabs → j ∈ P → k ∈ tabs → k ∉ P → py_eq sp j k = false.
Proof.
  intros [_ Hg _ _] Hj HjP Hk HkP. unfold py_eq.
  rewrite bool_decide_eq_false_2 by (intros ->; done). simpl.
  destruct (lookup sp j) as [y|] eqn:Ey; [|done].
  destruct (lookup sp k) as [z|] eqn:Ez; [|done].
  rewrite list.Forall_forall in Hg.
  pose proof (Hg y (lookup_in_all_nodes _ _ _ Ey) j
                (proj1 (lookup_Some _ _ _ Ey)) Hj) as [Hy _].
  pose proof (Hg z (lookup_in_all_nodes _ _ _ Ez) k
                (proj1 (lookup_Some _ _ _ Ez)) Hk) as [_ Hz].
  by apply (node_eqb_head lo hi); auto.
Qed.

Lemma py_index_position P hi sp done k rest :
  Inv P hi sp → (∀ j, j ∈ done → j ∈ tabs ∧ j ∈ P) → k ∈ tabs → k ∉ P →
  py_index sp (done ++ k :: rest) k = Ok (length done).
Proof.
  intros HI Hdone Hk HkP. induction done as [|j done IH]; simpl.
  - unfold py_eq. by rewrite bool_decide_eq_true_2.
  - destruct (Hdone j) as [Hj HjP]; [by left|].
    rewrite (py_eq_done P hi) by done.
    rewrite IH; [done|]. intros j' Hj'. apply Hdone. by right.
Qed.

End Tabs.

(** *** One turn of the loop, and the loop *)

Lemma Inv_ext tabs lo P P' hi sp :
  (∀ j, j ∈ P ↔ j ∈ P') → Inv tabs lo P hi sp → Inv tabs lo P' hi sp.
Proof.
  intros HPP [Hb Hg Hhi Hlo]. split; [done| |done..].
  eapply list.Forall_impl; [exact Hg|]. intros y. by apply good_ext.
Qed.

Lemma tab_body_step tabs lo titles wraper sp hi done k rest :
  (∀ j, j ∈ tabs → j < lo) →
  tabs = done ++ k :: rest → NoDup tabs → wraper ∉ tabs →
  Inv tabs lo done hi sp →
  tab_body titles tabs wraper sp k
  = tab_body_by_position titles wraper sp (length done, k)
  ∧ ∀ sp', tab_body_by_position titles wraper sp (length done, k) = Ok sp' →
           Inv tabs lo (done ++ [k]) (fresh sp') sp'.
Proof.
  intros Hlo Htabs Hnd Hw HI.
  assert (k ∈ tabs) as Hk by (subst tabs; set_solver).
  assert (k ∉ done) as Hkd.
  { subst tabs. apply list.NoDup_app in Hnd as (_ & Hd & _). intros Hin.
    apply (Hd k Hin). by left. }
  assert (∀ j, j ∈ done → j ∈ tabs ∧ j ∈ done) as Hdone by (subst tabs; set_solver).
  unfold tab_body, tab_body_by_position.
  remember (modify k (map_attrs (λ _, class_attr (AStr "tabview-tab"))) sp)
    as s1 eqn:Hs1.
  assert (Inv tabs lo done hi s1) as HI1
    by (rewrite Hs1; apply Inv_reset_attrs; auto).
  clear Hs1.
  pose proof (Inv_new_tag tabs lo Hlo done hi "div"
                (new_class "tab-title") s1 HI1) as HI2.
  unfold new_tag in *. simpl in HI2.
  split.
  - rewrite Htabs at 1. rewrite (py_index_position tabs lo done hi); auto.
  - intros sp'. destruct (item titles (length done)) as [txt|e] eqn:Et; [|done].
    cbn [mbind result_bind Py.bind]. intros [= <-].
    pose proof (fresh_absent tabs lo done hi s1 HI1) as Hf.
    pose proof (title_made s1 txt Hf) as Hmade.
    unfold new_tag in Hmade. simpl in Hmade. rewrite Hmade.
    assert (k ≠ fresh s1) as Hkf.
    { destruct HI1 as [_ _ ? ?]. specialize (Hlo k Hk). lia. }
    rewrite (title_inserted s1 k txt Hf Hkf).
    pose proof (Inv_push_title tabs lo Hlo done hi s1 k txt Hk HI1) as HI4.
    rewrite fresh_append.
    apply (Inv_ext tabs lo (k :: done)); [set_solver|].
    assert (fresh (match lookup s1 k with
                   | Some _ =>
                       modify k (λ n, set_contents
                                  (title_block (fresh s1) txt :: contents n) n)
                              (Soup (roots s1) (S (fresh s1)))
                   | None => Soup (roots s1 ++ [title_block (fresh s1) txt])
                                  (S (fresh s1))
                   end) = S (fresh s1)) as -> by (by destruct (lookup s1 k)).
    apply Inv_append; auto.
Qed.

Lemma tab_loop_by_position tabs lo titles wraper :
  (∀ j, j ∈ tabs → j < lo) → NoDup tabs → wraper ∉ tabs →
  ∀ rest done sp hi,
    tabs = done ++ rest → Inv tabs lo done hi sp →
    for_each (tab_body titles tabs wraper) rest sp
    = for_each (tab_body_by_position titles wraper)
               (zip (seq (length done) (length rest)) rest) sp.
Proof.
  intros Hlo Hnd Hw. induction rest as [|k rest IH]; intros done sp hi Htabs HI.
  - done.
  - change (for_each (tab_body titles tabs wraper) (k :: rest) sp)
      with (tab_body titles tabs wraper sp k
            ≫= for_each (tab_body titles tabs wraper) rest).
    change (for_each (tab_body_by_position titles wraper)
              (zip (seq (length done) (length (k :: rest))) (k :: rest)) sp)
      with (tab_body_by_position titles wraper sp (length done, k)
            ≫= for_each (tab_body_by_position titles wraper)
                 (zip (seq (S (length done)) (length rest)) rest)).
    destruct (tab_body_step tabs lo titles wraper sp hi done k rest)
      as [Heq Hnext]; auto.
    rewrite Heq.
    destruct (tab_body_by_position titles wraper sp (length done, k))
      as [sp'|e] eqn:E; [|done].
    cbn [mbind result_bind Py.bind]. rewrite (IH (done ++ [k]) sp' (fresh sp')).
    + by rewrite length_app, Nat.add_1_r.
    + by rewrite <- app_assoc.
    + by apply Hnext.
Qed.

(** *** The blocks [select] returns are distinct *)

Lemma dedup_ids_NoDup seen l :
  NoDup (ids (dedup_ids seen l)) ∧ ∀ x, x ∈ ids (dedup_ids seen l) → x ∉ seen.
Proof.
  revert seen. induction l as [|n l IH]; intros seen; simpl.
  - split; [constructor|]. by intros x ?%elem_of_nil.
  - destruct n as [s|i nm a ks]; simpl; [apply IH|].
    case_bool_decide as Hi; [apply IH|].
    destruct (IH (i :: seen)) as [Hnd Hx]. unfold ids in *. simpl. split.
    + apply list.NoDup_cons. split; [|done]. intros Hin%Hx. apply Hin. by left.
    + intros x [->|Hin]%elem_of_cons; [done|].
      specialize (Hx x Hin). set_solver.
Qed.

Lemma select_step_NoDup ctx t : NoDup (ids (select_step ctx t)).
Proof. destruct t; apply dedup_ids_NoDup. Qed.

Lemma tabs_NoDup sp i t1 t2 : NoDup (ids (select_in sp i [t1; t2])).
Proof.
  unfold select_in. destruct (lookup sp i); [|constructor].
  apply select_step_NoDup.
Qed.

(* ===================================================================== *)
(** ** Tab views: titles and blocks *)
(* ===================================================================== *)

Lemma tab_ready_Inv sp tabs :
  tab_ready sp tabs = true →
  (∀ j, j ∈ tabs → j < fresh sp) ∧ Inv tabs (fresh sp) [] (fresh sp) sp.
Proof.
  unfold tab_ready. rewrite !andb_true_iff, !forallb_forall.
  intros [[Hb Ht] Hg]. split.
  - intros j Hj. apply Nat.ltb_lt, Ht. by apply list_elem_of_In.
  - split; [| |done..].
    + apply list.Forall_forall. intros y Hy j Hj.
      specialize (Hb y (proj1 (list_elem_of_In _ _) Hy)). rewrite Hj in Hb.
      by apply Nat.ltb_lt.
    + apply list.Forall_forall. intros y Hy j Hj Hin.
      split; [by intros ?%elem_of_nil|]. intros _.
      specialize (Hg y (proj1 (list_elem_of_In _ _) Hy)). rewrite Hj in Hg.
      rewrite bool_decide_eq_true_2 in Hg by done. simpl in Hg.
      rewrite forallb_forall in Hg. apply list.Forall_forall. intros k Hk.
      specialize (Hg k (proj1 (list_elem_of_In _ _) Hk)).
      by apply negb_true_iff.
Qed.

(** The index-of search of [tab_body] pairs titles and blocks as the
    position does. *)
Lemma tabview_by_position sp i :
  tab_ready sp (tab_blocks sp i) = true →
  for_each (tab_body (tab_titles sp i) (tab_blocks sp i) (fresh sp))
           (tab_blocks sp i) (tab_soup sp)
  = for_each (tab_body_by_position (tab_titles sp i) (fresh sp))
             (zip (seq 0 (length (tab_blocks sp i))) (tab_blocks sp i))
             (tab_soup sp).
Proof.
  intros [Hlt HI]%tab_ready_Inv.
  apply (tab_loop_by_position (tab_blocks sp i) (fresh sp) _ _ Hlt
           (tabs_NoDup _ _ _ _)) with (done := []) (hi := fresh sp); [|done|].
  - intros Hin%Hlt. lia.
  - by apply Inv_new_tag.
Qed.

Lemma tabview_body_unfold sp i :
  tabview_body sp i =
    (sp2 ← for_each (tab_body (tab_titles sp i) (tab_blocks sp i) (fresh sp))
                    (tab_blocks sp i) (tab_soup sp);
     replace_with sp2 i (fresh sp)).
Proof. reflexivity. Qed.

(** *** Markup without title blocks is ready *)

Lemma max_id_le_foldr i ks :
  i ≤ foldr (λ k m, max_id k `max` m) i ks
  ∧ ∀ k, k ∈ ks → max_id k ≤ foldr (λ k m, max_id k `max` m) i ks.
Proof.
  induction ks as [|k ks [IH1 IH2]]; simpl.
  - split; [lia|]. by intros k ?%elem_of_nil.
  - split; [lia|]. intros k' [->|Hk]%elem_of_cons; [lia|].
    specialize (IH2 k' Hk). lia.
Qed.

Lemma max_id_bound n : Forall (bounded (S (max_id n))) (nodes n).
Proof.
  induction n as [s|i nm a ks IH] using node_ind'.
  - unfold nodes. simpl. constructor; [|constructor]. by intros j.
  - rewrite nodes_Elem. simpl max_id.
    destruct (max_id_le_foldr i ks) as [Hi Hks]. constructor.
    + intros j [= <-]. lia.
    + apply Forall_flat_map_nodes. rewrite list.Forall_forall in IH.
      apply list.Forall_forall. intros k Hk.
      eapply list.Forall_impl; [exact (IH k Hk)|].
      intros y Hy j Hj. specialize (Hy j Hj). specialize (Hks k Hk). lia.
Qed.

Lemma contents_nodes k y : k ∈ contents y → k ∈ nodes y.
Proof.
  destruct y as [s|i nm a ks]; simpl; [by intros ?%elem_of_nil|].
  intros Hk. rewrite nodes_Elem. right. apply elem_of_flat_map.
  exists k. split; [done|]. unfold nodes. by left.
Qed.

Lemma descendants_nodes k y : k ∈ descendants y → k ∈ nodes y.
Proof. intros Hk. unfold nodes. by right. Qed.

Lemma contents_descendants k y : k ∈ contents y → k ∈ descendants y.
Proof.
  destruct y as [s|i nm a ks]; simpl; [done|].
  intros Hk. apply elem_of_flat_map. exists k. split; [done|]. by left.
Qed.

Lemma dedup_ids_sub seen l x : x ∈ dedup_ids seen l → x ∈ l.
Proof.
  revert seen. induction l as [|n l IH]; intros seen; simpl; [done|].
  destruct (nid n); [|by right; eapply IH].
  case_bool_decide; [by right; eapply IH|].
  intros [->|Hx]%elem_of_cons; [by left|]. right. by eapply IH.
Qed.

Lemma select_step_sub n ctx t :
  (∀ c, c ∈ ctx → c ∈ nodes n) →
  ∀ x, x ∈ select_step ctx t → x ∈ nodes n.
Proof.
  intros Hctx x Hx.
  destruct t as [s|s]; simpl in Hx; apply dedup_ids_sub in Hx;
    apply elem_of_flat_map in Hx as (c & Hc & Hx);
    rewrite list_elem_of_In in Hx; apply filter_In in Hx as [Hx _];
    rewrite <- list_elem_of_In in Hx;
    apply (nodes_sub c n (Hctx c Hc)).
  - by apply descendants_nodes.
  - by apply contents_nodes.
Qed.

Lemma select_sub sel n x : x ∈ select sel n → x ∈ nodes n.
Proof.
  unfold select.
  assert (∀ ctx, (∀ c, c ∈ ctx → c ∈ nodes n) →
            x ∈ fold_left select_step sel ctx → x ∈ nodes n) as H.
  { induction sel as [|t sel IH]; intros ctx Hctx; simpl; [apply Hctx|].
    apply IH. by apply select_step_sub. }
  apply H. intros c ->%list_elem_of_singleton. unfold nodes. by left.
Qed.

(** The blocks of a tab view are tags of the soup the pass started
    from. *)
Lemma tab_blocks_in sp i k :
  k ∈ tab_blocks sp i → ∃ y, y ∈ all_nodes sp ∧ nid y = Some k.
Proof.
  unfold tab_blocks, ids, select_in, tab_soup, new_tag. cbn [fst roots].
  rewrite lookup_app.
  destruct (lookup (Soup (roots sp) _) i) as [m|] eqn:Em.
  - cbn [from_option]. intros (y & Hy & Hid)%list_elem_of_omap.
    exists y. split; [|done]. apply select_sub in Hy.
    assert (m ∈ all_nodes sp) as Hm by (by apply (lookup_in_all_nodes _ i)).
    unfold all_nodes in *. apply elem_of_flat_map in Hm as (r & Hr & Hm).
    apply elem_of_flat_map. exists r. split; [done|]. by eapply nodes_sub.
  - unfold lookup. simpl. case_decide; simpl; by intros ?%elem_of_nil.
Qed.

Lemma all_nodes_child sp y k : y ∈ all_nodes sp → k ∈ contents y → k ∈ all_nodes sp.
Proof.
  unfold all_nodes. intros (r & Hr & Hy)%elem_of_flat_map Hk.
  apply elem_of_flat_map. exists r. split; [done|].
  apply (nodes_sub y r Hy). by apply contents_nodes.
Qed.

Lemma tab_ready_plain sp i :
  plain sp = true → tab_ready sp (tab_blocks sp i) = true.
Proof.
  unfold plain, tab_ready. rewrite !andb_true_iff, !forallb_forall.
  intros Hp.
  assert (∀ y, y ∈ all_nodes sp →
            title_like y = false ∧ ∀ j, nid y = Some j → j < fresh sp) as Hp'.
  { intros y Hy. apply list_elem_of_In, Hp, andb_true_iff in Hy as [Hc Hb].
    split; [by apply negb_true_iff|]. intros j Hj. rewrite Hj in Hb.
    by apply Nat.ltb_lt. }
  repeat split.
  - intros y Hy%list_elem_of_In. destruct (nid y) as [j|] eqn:Ej; [|done].
    apply Nat.ltb_lt. by apply (Hp' y).
  - intros k Hk%list_elem_of_In. apply tab_blocks_in in Hk as (y & Hy & Hid).
    apply Nat.ltb_lt. by apply (Hp' y).
  - intros y Hy%list_elem_of_In. destruct (nid y) as [j|] eqn:Ej; [|done].
    apply orb_true_iff. right. apply forallb_forall.
    intros k Hk%list_elem_of_In. apply negb_true_iff.
    by apply (Hp' k), (all_nodes_child sp y).
Qed.

Lemma plain_make_soup doc : title_free doc = true → plain (make_soup doc) = true.
Proof.
  unfold title_free, plain, make_soup, all_nodes. cbn [roots fresh flat_map].
  rewrite app_nil_r, !forallb_forall. intros Hp y Hy.
  rewrite (Hp y Hy). simpl. destruct (nid y) as [j|] eqn:Ej; [|done].
  apply Nat.ltb_lt. pose proof (max_id_bound doc) as Hb.
  rewrite list.Forall_forall in Hb. apply (Hb y); [|done].
  by apply list_elem_of_In.
Qed.

Lemma plain_decompose sp c : plain sp = true → plain (decompose sp c) = true.
Proof.
  unfold plain. rewrite !forallb_forall. intros Hp.
  set (Q := λ y : node, negb (title_like y) = true ∧ bounded (fresh sp) y).
  assert (Forall Q (all_nodes (decompose sp c))) as HQ.
  { apply (Forall_all_nodes_decompose Q Q).
    - intros s. split; [done|]. by intros j.
    - by intros j nm a ks [? Hb].
    - apply list.Forall_forall. intros y Hy%list_elem_of_In.
      apply Hp, andb_true_iff in Hy as [Hc Hb]. split; [done|].
      intros j Hj. rewrite Hj in Hb. by apply Nat.ltb_lt. }
  rewrite list.Forall_forall in HQ. intros y Hy%list_elem_of_In.
  destruct (HQ y Hy) as [-> Hb]. simpl.
  destruct (nid y) as [j|] eqn:Ej; [|done]. apply Nat.ltb_lt. by apply Hb.
Qed.

(** The first tab view of a page whose markup has no title block, met
    after the rating widgets were destroyed, is ready. *)
Lemma tab_ready_first doc widgets i :
  title_free doc = true →
  let sp := fold_left decompose widgets (make_soup doc) in
  tab_ready sp (tab_blocks sp i) = true.
Proof.
  intros Hp sp. apply tab_ready_plain. subst sp.
  apply plain_make_soup in Hp. revert Hp. generalize (make_soup doc).
  induction widgets as [|c cs IH]; intros s Hs; simpl; [done|].
  by apply IH, plain_decompose.
Qed.

(** *** Titles and blocks of different number *)

Lemma item_lt {A} (l : list A) n : n < length l → ∃ x, item l n = Ok x.
Proof.
  intros Hn. unfold item. destruct (lookup_lt_is_Some_2 l n Hn) as [x ->].
  by exists x.
Qed.

Lemma item_ge {A} (l : list A) n : length l ≤ n → item l n = Raise IndexError.
Proof. intros Hn. unfold item. by rewrite lookup_ge_None_2. Qed.

(** [tabs.index(k)] of a member finds an entry. *)
Lemma py_index_member sp tabs k :
  k ∈ tabs → ∃ n, py_index sp tabs k = Ok n ∧ n < length tabs.
Proof.
  induction tabs as [|t tabs IH]; [by intros ?%elem_of_nil|].
  intros Hk. simpl. unfold py_eq at 1.
  destruct (decide (t = k)) as [->|Hne].
  - rewrite bool_decide_eq_true_2 by done. exists 0. split; [done|lia].
  - apply elem_of_cons in Hk as [->|Hk]; [done|].
    destruct (IH Hk) as (n & Hn & Hlt).
    destruct (bool_decide (t = k) || _).
    + exists 0. split; [done|lia].
    + rewrite Hn. exists (S n). split; [done|lia].
Qed.

Lemma tab_body_enough titles tabs wraper sp k :
  k ∈ tabs → length tabs ≤ length titles →
  ∃ sp', tab_body titles tabs wraper sp k = Ok sp'.
Proof.
  intros Hk Hlen. unfold tab_body. cbn [new_tag].
  match goal with |- context [py_index ?s tabs k] =>
    destruct (py_index_member s tabs k Hk) as (n & -> & Hn) end.
  cbn [mbind result_bind Py.bind].
  destruct (item_lt titles n) as [t ->]; [lia|]. by eexists.
Qed.

Lemma tab_loop_enough titles tabs wraper rest :
  rest ⊆ tabs → length tabs ≤ length titles →
  ∀ sp, ∃ sp', for_each (tab_body titles tabs wraper) rest sp = Ok sp'.
Proof.
  intros Hsub Hlen. induction rest as [|k rest IH]; intros sp.
  - by exists sp.
  - destruct (tab_body_enough titles tabs wraper sp k) as [sp1 H1];
      [set_solver|done|].
    cbn [for_each]. rewrite H1. cbn [Py.bind]. apply IH. set_solver.
Qed.

Lemma tab_body_by_position_short titles wraper sp n k :
  length titles ≤ n →
  tab_body_by_position titles wraper sp (n, k) = Raise IndexError.
Proof.
  intros Hn. unfold tab_body_by_position. cbn [new_tag].
  by rewrite (item_ge titles n Hn).
Qed.

Lemma tab_body_by_position_long titles wraper sp n k :
  n < length titles →
  ∃ sp', tab_body_by_position titles wraper sp (n, k) = Ok sp'.
Proof.
  intros Hn. unfold tab_body_by_position. cbn [new_tag].
  destruct (item_lt titles n Hn) as [t ->]. by eexists.
Qed.

Lemma tab_loop_short titles wraper rest :
  ∀ a sp, a ≤ length titles < a + length rest →
    for_each (tab_body_by_position titles wraper)
             (zip (seq a (length rest)) rest) sp = Raise IndexError.
Proof.
  induction rest as [|k rest IH]; intros a sp Hlen; simpl in Hlen.
  - lia.
  - change (for_each (tab_body_by_position titles wraper)
              (zip (seq a (length (k :: rest))) (k :: rest)) sp)
      with (tab_body_by_position titles wraper sp (a, k)
            ≫= for_each (tab_body_by_position titles wraper)
                 (zip (seq (S a) (length rest)) rest)).
    destruct (decide (a < length titles)) as [Ha|Ha].
    + destruct (tab_body_by_position_long titles wraper sp a k Ha) as [sp' ->].
      cbn [mbind result_bind Py.bind]. apply IH. lia.
    + rewrite tab_body_by_position_short by lia. done.
Qed.

Lemma replace_with_not_IndexError sp i w : replace_with sp i w ≠ Raise IndexError.
Proof.
  unfold replace_with. case_decide; [done|].
  destruct (parent_of sp i) as [[p ix]|]; [|done]. by case_decide.
Qed.

(* ===================================================================== *)
(** ** Tab views: number and position of the titles *)
(* ===================================================================== *)

(** C3. A tab view with at least as many titles as blocks is rewritten
    with no error from the title lookup: every block finds a title, the
    titles beyond the last block are dropped, and the pass goes on to
    replace the tab view.  With fewer titles than blocks, in a tab view
    none of whose blocks has a child that equals a title block
    ([tab_ready]), the lookup of the first block without a title raises
    [IndexError]. *)
Theorem C3_tab_titles_count sp i :
  (length (tab_blocks sp i) ≤ length (tab_titles sp i) →
     (∃ sp2, for_each (tab_body (tab_titles sp i) (tab_blocks sp i) (fresh sp))
                      (tab_blocks sp i) (tab_soup sp) = Ok sp2
             ∧ tabview_body sp i = replace_with sp2 i (fresh sp))
     ∧ tabview_body sp i ≠ Raise IndexError)
  ∧ (tab_ready sp (tab_blocks sp i) = true →
     length (tab_titles sp i) < length (tab_blocks sp i) →
     tabview_body sp i = Raise IndexError).
Proof.
  split.
  - intros Hlen.
    destruct (tab_loop_enough (tab_titles sp i) (tab_blocks sp i) (fresh sp)
                (tab_blocks sp i) (λ _ H, H) Hlen (tab_soup sp)) as [sp2 H2].
    rewrite tabview_body_unfold, H2. cbn [mbind result_bind Py.bind]. split.
    + by exists sp2.
    + apply replace_with_not_IndexError.
  - intros Hready Hlen.
    rewrite tabview_body_unfold, (tabview_by_position sp i Hready).
    rewrite tab_loop_short; [done|]. simpl. lia.
Qed.

(** C10. In a tab view none of whose blocks has a child that equals a
    title block ([tab_ready]: no child [div] with the one attribute
    [class="tab-title"]), the index-of search of a block returns the
    block's own position: when a block's turn comes, the blocks before it
    start with their title blocks and equal it no more.  The pass gives
    the block at position [n] the title at position [n], whether or not
    another block of the tab view had equal markup. *)
Theorem C10_title_by_own_position sp i :
  tab_ready sp (tab_blocks sp i) = true →
  tabview_body sp i =
    (sp2 ← for_each (tab_body_by_position (tab_titles sp i) (fresh sp))
                    (zip (seq 0 (length (tab_blocks sp i))) (tab_blocks sp i))
                    (tab_soup sp);
     replace_with sp2 i (fresh sp)).
Proof.
  intros Hready. by rewrite tabview_body_unfold, (tabview_by_position sp i Hready).
Qed.

(* ===================================================================== *)
(** ** Content and comment count of a parsed page *)
(* ===================================================================== *)

(** C1. A record whose markup has no content region: [_parse_body] leaves
    the content absent, and [_parse_html] then formats the title
    paragraph around it, so that the page ends with the text
    [<p class='tale-title'>Forum</p>None] for content. *)
Theorem C1_no_content_region_gets_text :
  ∀ ext : External,
    select [Desc (hash_id "page-content")] (Sample.doc "Forum" None [] []) = []
    ∧ data <$> Page_init Sample.forum 1 (Some (Sample.at_ "forum:start"))
      = Ok (Some "<p class='tale-title'>Forum</p>None").
Proof. intros ext. split; vm_compute; reflexivity. Qed.

(** C9. A discussion button reading [Discuss (12)]: the attribute holds
    the matched text ["12"], a string, where the fallback of the same
    statement stores the integer 0. *)
Theorem C9_comment_count_is_text :
  ∀ ext : External,
    comments <$> Page_init Sample.discussed 1 (Some (Sample.at_ "a-tale"))
    = Ok (Some (VStr "12")).
Proof. intros ext. vm_compute. reflexivity. Qed.

(* ===================================================================== *)
(** ** The constructor: content and images *)
(* ===================================================================== *)

(** The images [_parse_images] records are catalog urls. *)
Lemma image_body_recorded catalog (Q : string → Prop) st i st' :
  (∀ x, is_Some (catalog !! x) → Q x) →
  image_body catalog st i = Ok st' → Forall Q st.2 → Forall Q st'.2.
Proof.
  intros HQ H Hst. destruct st as [sp imgs]. unfold image_body in H.
  destruct (lookup sp i) as [n|]; [|by injection H as <-].
  destruct (get_str "src" n) as [src|]; [|by injection H as <-].
  case_bool_decide as Hcat.
  - inv_bind H as path Hp. injection H as <-. simpl in *.
    apply Forall_app. split; [done|]. constructor; [by apply HQ|constructor].
  - destruct (List.find _ _); by injection H as <-.
Qed.

Lemma _parse_images_recorded catalog (Q : string → Prop) sp data imgs sp' imgs' :
  (∀ x, is_Some (catalog !! x) → Q x) →
  _parse_images catalog sp data imgs = Ok (sp', imgs') →
  Forall Q imgs → Forall Q imgs'.
Proof.
  intros HQ H Hi. unfold _parse_images in H.
  by eapply (for_each_inv (λ st, Forall Q st.2)) in H;
    [| intros s x s' _ Hs Hb; eapply image_body_recorded|].
Qed.

Section Content.
Context {ext : External} (sn : Snapshot.t).

Lemma _parse_body_images self sp doc sp' p :
  _parse_body sn self sp doc = Ok (sp', p) →
  Forall (in_catalog sn) (images self) → Forall (in_catalog sn) (images p).
Proof.
  unfold _parse_body. intros H Hi.
  destruct (select_in sp doc _); [by inversion H; subst|].
  inv_bind H as s1 H1. inv_bind H as s2 H2. inv_bind H as s3 H3.
  inv_bind H as s4 H4. destruct s4 as [s4 imgs]. injection H as _ <-. simpl.
  by eapply _parse_images_recorded in H4.
Qed.

Lemma _parse_html_content self doc p :
  _parse_html sn self doc = Ok p →
  is_Some (data p)
  ∧ (Forall (in_catalog sn) (images self) → Forall (in_catalog sn) (images p)).
Proof.
  unfold _parse_html. intros H. inv_bind H as x E. destruct x as [sp q].
  inv_bind H as q' E0. injection H as <-. simpl. split; [by eexists|].
  unfold _parse_title in E0. inv_bind E0 as t Et. injection E0 as <-. simpl.
  intros Hi. eapply _parse_body_images; [exact E|].
  by repeat (case_match; simpl).
Qed.

Lemma parse_record_content u self :
  parse_record sn u = Ok self →
  is_Some (data self) ∧ Forall (in_catalog sn) (images self).
Proof.
  unfold parse_record. intros H. inv_bind H as pd E. inv_bind H as x E0.
  apply _parse_html_content in E0 as [Hd Hi]. specialize (Hi ltac:(constructor)).
  inv_bind H as x1 E1.
  assert (data x1 = data x ∧ images x1 = images x) as [Hd1 Hi1].
  { destruct (Snapshot.history pd).
    - inv_bind E1 as x2 E2. inv_bind E1 as a Ea. injection E1 as <-.
      unfold _parse_history in E2. inv_bind E2 as hs Ehs. by injection E2 as <-.
    - by injection E1 as <-. }
  assert (data self = data x1 ∧ images self = images x1) as [-> ->].
  { destruct (Snapshot.votes pd); [|by injection H as <-].
    unfold _parse_votes in H. inv_bind H as vs Evs. by injection H as <-. }
  by rewrite Hd1, Hi1.
Qed.

Lemma _override_content mk self p :
  _override mk self = Ok p →
  data p = (if url_is self "scp-1047-j" then None else data self)
  ∧ images p = images self.
Proof.
  unfold _override. intros H.
  eapply (for_each_inv (λ q,
            data q = (if url_is self "scp-1047-j" then None else data self)
            ∧ images q = images self)) in H; [done| |].
  - intros s [pu fn] s' _ Hs Hb. destruct (url_is s pu); [|by injection Hb as <-].
    inv_bind Hb as l Hl. by injection Hb as <-.
  - simpl. by destruct (url_is self "scp-1047-j").
Qed.

(** X1. A page built from a record of the snapshot has content text, with
    one exception: the page of [scp-1047-j], whose content [_override]
    sets to [None].  So the test [p.data is not None] in [children]
    drops a linked page exactly when its url is that one. *)
Theorem X1_content_absent_only_by_override fuel u p lpages :
  Page_init sn fuel (Some u) = Ok p →
  (data p = None ↔ u = site +:+ "/scp-1047-j")
  ∧ collect (λ u, Page_init sn fuel (Some u)) lpages u
    = Ok (if bool_decide (u = site +:+ "/scp-1047-j") then lpages
          else lpages ++ [p]).
Proof.
  intros H. assert (data p = None ↔ u = site +:+ "/scp-1047-j") as Hiff.
  { destruct fuel as [|f]; simpl in H; [discriminate|].
    inv_bind H as self E.
    pose proof (parse_record_authors sn u self E) as (Hu & _).
    apply parse_record_content in E as [[d Hd] _].
    apply _override_content in H as [-> _].
    unfold url_is. rewrite Hu, Hd. case_bool_decide as Hb.
    - injection Hb as ->. done.
    - split; [done|]. intros ->. by destruct Hb. }
  split; [done|]. unfold collect. rewrite H.
  case_bool_decide as Hb.
  - apply Hiff in Hb. by rewrite Hb.
  - destruct (data p) eqn:Ed; [done|]. exfalso. apply Hb. by apply Hiff.
Qed.

(** X2. Every url in the [images] of a page built from the snapshot is
    a url of the asset catalog. *)
Theorem X2_images_are_catalog_urls fuel ou p x :
  Page_init sn fuel ou = Ok p → x ∈ images p →
  is_Some (Snapshot.images sn !! x).
Proof.
  destruct fuel as [|f]; simpl; [discriminate|]. intros H Hx.
  inv_bind H as self E. apply _override_content in H as [_ Hi].
  rewrite Hi in Hx. destruct ou as [u|].
  - apply parse_record_content in E as [_ Hc].
    rewrite list.Forall_forall in Hc. by apply Hc.
  - injection E as <-. by apply elem_of_nil in Hx.
Qed.
End Content.

(* ===================================================================== *)
(** ** Title and history *)
(* ===================================================================== *)



Lemma map_gen_Forall2 {A B} (f : A → result B) l rs :
  map_gen f l = Ok rs → Forall2 (λ x r, f x = Ok r) l rs.
Proof.
  revert rs. induction l as [|x l IH]; intros rs; simpl.
  - intros [= <-]. constructor.
  - intros H. inv_bind H as y Hy. inv_bind H as r Hr. injection H as <-.
    constructor; [done|]. by apply IH.
Qed.

Section Title.
Context {ext : External} (sn : Snapshot.t).


(** X4. A record whose history table has no revision row cannot be made
    into a page: the history comes out empty and [_meta_authors] reads
    its first entry. *)
Theorem X4_empty_history_raises fuel u pd h :
  Snapshot.DBPage sn !! u = Some pd →
  Snapshot.history pd = Some h →
  drop 1 (select [Desc (tag_ "tr")] h) = [] →
  is_ok (_parse_html sn (blank (Some u)) (Snapshot.html pd)) = true →
  Page_init sn (S fuel) (Some u) = Raise IndexError.
Proof.
  intros Hpd Hh Hrows Hok. simpl. unfold parse_record, Snapshot.pagedata.
  rewrite Hpd. cbn [mbind result_bind Py.bind].
  destruct (_parse_html sn (blank (Some u)) (Snapshot.html pd)) as [x|];
    [|done].
  cbn [mbind result_bind Py.bind]. rewrite Hh. unfold _parse_history.
  by rewrite Hrows.
Qed.

(** X5. [_parse_history] skips the heading row and lists the revisions
    in the reverse of the table's order, one per row: the row at
    position [k + 1] of the table gives the entry [k + 1] places from
    the end. *)
Theorem X5_history_reversed self h p k row :
  _parse_history self h = Ok p →
  select [Desc (tag_ "tr")] h !! S k = Some row →
  length (history p) = length (select [Desc (tag_ "tr")] h) - 1
  ∧ ∃ r, history_row row = Ok r
         ∧ history p !! (length (history p) - S k) = Some r.
Proof.
  unfold _parse_history. intros H Hrow. inv_bind H as rs Hrs.
  injection H as <-. simpl. apply map_gen_Forall2 in Hrs.
  assert (length (drop 1 (select [Desc (tag_ "tr")] h)) = length rs) as Hlen
    by (by eapply Forall2_length).
  rewrite length_drop in Hlen. rewrite length_rev. split; [done|].
  assert (drop 1 (select [Desc (tag_ "tr")] h) !! k = Some row) as Hk
    by (by rewrite lookup_drop).
  eapply Forall2_lookup_l in Hk as (r & Hr & Hrow'); [|exact Hrs].
  exists r. split; [done|]. rewrite rev_alt. fold (reverse rs).
  apply lookup_lt_Some in Hr as Hlt.
  rewrite reverse_lookup by lia. rewrite <- Hr. f_equal. lia.
Qed.

(** X16. [_parse_votes] gives one vote for every user span of the
    markup, in the order of the spans, each under the text of its span
    as user name. *)
Theorem X16_votes_follow_user_spans self v p k span :
  _parse_votes self v = Ok p →
  select [Desc (tag_class "span" "printuser")] v !! k = Some span →
  length (votes p) = length (select [Desc (tag_class "span" "printuser")] v)
  ∧ ∃ r, votes p !! k = Some r ∧ v_user r = text span
         ∧ vote_row v span = Ok r.
Proof.
  unfold _parse_votes. intros H Hk. inv_bind H as rs Hrs.
  injection H as <-. simpl. apply map_gen_Forall2 in Hrs.
  split; [symmetry; by eapply Forall2_length|].
  eapply Forall2_lookup_l in Hk as (r & Hr & Hrow); [|exact Hrs].
  exists r. split; [done|]. split; [|done].
  unfold vote_row in Hrow. repeat case_match; try done.
  by injection Hrow as <-.
Qed.
End Title.

(* ===================================================================== *)
(** ** [children]: what it returns and what it raises *)
(* ===================================================================== *)

(** *** Exceptions that come out of the loops *)

Lemma for_each_raises {S X} (Q : exn → Prop) (body : S → X → result S) l st e :
  (∀ s x e, body s x = Raise e → Q e) →
  for_each body l st = Raise e → Q e.
Proof.
  intros Hb. revert st. induction l as [|x l IH]; intros st; simpl; [done|].
  destruct (body st x) as [s|e'] eqn:E; simpl; [apply IH|].
  intros [= <-]. by eapply Hb.
Qed.

Lemma any_gen_raises {A} (Q : exn → Prop) (f : A → result bool) l e :
  (∀ x e, f x = Raise e → Q e) → any_gen f l = Raise e → Q e.
Proof.
  intros Hf. induction l as [|x l IH]; simpl; [done|].
  destruct (f x) as [[]|e'] eqn:E; simpl; [done|apply IH|].
  intros [= <-]. by eapply Hf.
Qed.

Lemma filter_gen_raises {A} (Q : exn → Prop) (f : A → result bool) l e :
  (∀ x e, f x = Raise e → Q e) → filter_gen f l = Raise e → Q e.
Proof.
  intros Hf. induction l as [|x l IH]; simpl; [done|].
  destruct (f x) as [b|e'] eqn:E; simpl.
  - destruct (filter_gen f l); simpl; [done|]. intros [= <-]. by apply IH.
  - intros [= <-]. by eapply Hf.
Qed.

Lemma links_raises self e :
  links self = Raise e → e = IndexError ∨ e = AttributeError.
Proof.
  unfold links. destruct (_raw_html self) as [doc|]; [|intros [= <-]; by right].
  apply (for_each_raises (λ e, e = IndexError ∨ e = AttributeError)).
  intros s a e'. unfold links_body.
  destruct (get_str "href" a) as [[|c h]|]; [intros [= <-]; by left| |done].
  by repeat case_match.
Qed.

Lemma backlinks_raises self c e :
  backlinks self c = Raise e → e ≠ DBPage_DoesNotExist.
Proof.
  unfold backlinks. destruct (links c) as [ls|e'] eqn:El; simpl.
  - case_bool_decide; [done|]. destruct (_raw_html c); [|by intros [= <-]].
    destruct (list.last _); [|done].
    destruct (get_str "href" _); [done|]. by intros [= <-].
  - intros [= <-]. by apply links_raises in El as [-> | ->].
Qed.

Lemma collect_raises mk lpages u e :
  collect mk lpages u = Raise e → e ≠ DBPage_DoesNotExist.
Proof.
  unfold collect. destruct (mk u) as [p|e']; [done|].
  destruct e'; try done; by intros [= <-].
Qed.

(** *** Sublists *)

Lemma List_filter_sublist {A} (f : A → bool) l : List.filter f l `sublist_of` l.
Proof.
  induction l as [|x l IH]; simpl; [constructor|].
  destruct (f x); by constructor.
Qed.

Lemma filter_gen_sublist {A} (f : A → result bool) l r :
  filter_gen f l = Ok r → r `sublist_of` l.
Proof.
  revert r. induction l as [|x l IH]; intros r; simpl.
  - intros [= <-]. constructor.
  - intros H. inv_bind H as b Hb. inv_bind H as r' Hr. injection H as <-.
    destruct b; constructor; by apply IH.
Qed.

Lemma map_sublist {A B} (f : A → B) l k :
  l `sublist_of` k → map f l `sublist_of` map f k.
Proof. induction 1; simpl; by constructor. Qed.

(** The pages [children] collects stand in the order of the links. *)
Lemma collect_loop mk ls : ∀ acc lp,
  (∀ u p, mk u = Ok p → url p = Some u) →
  for_each (collect mk) ls acc = Ok lp →
  ∃ ps, lp = acc ++ ps ∧ map url ps `sublist_of` map Some ls
        ∧ Forall (λ c, is_Some (data c)) ps.
Proof.
  induction ls as [|u ls IH]; intros acc lp Hmk H; simpl in H.
  - injection H as <-. exists []. by rewrite app_nil_r.
  - inv_bind H as acc1 H1. destruct (IH acc1 lp Hmk H) as (ps & -> & Hsub & Hd).
    unfold collect in H1. destruct (mk u) as [p|e] eqn:Ep.
    + injection H1 as <-. destruct (data p) as [d|] eqn:Ed.
      * exists (p :: ps). rewrite <- app_assoc. split; [done|]. simpl.
        rewrite (Hmk u p Ep). split; [by constructor|].
        constructor; [by rewrite Ed|done].
      * exists ps. split; [done|]. split; [by constructor|done].
    + destruct e; try done. injection H1 as <-.
      exists ps. split; [done|]. split; [by constructor|done].
Qed.

Section Children.
Context {ext : External} (sn : Snapshot.t).

Lemma Page_init_url fuel u p : Page_init sn fuel (Some u) = Ok p → url p = Some u.
Proof.
  destruct fuel as [|f]; simpl; [done|]. intros H. inv_bind H as self E.
  apply parse_record_authors in E as (Hu & _).
  apply _override_meta in H as (Hup & _). congruence.
Qed.

(** X6. What [children()] of a page without a children override
    returns is drawn from the page's links: either it returns no
    child, or [links()] succeeds, the urls of the children, in their
    order, are among [links()] in its order, and every child has
    content. *)
Theorem X6_children_among_links fuel self cs :
  children_attr self = None →
  children sn fuel self = Ok cs →
  cs = [] ∨ ∃ ls, links self = Ok ls
                  ∧ map url cs `sublist_of` map Some ls
                  ∧ Forall (λ c, is_Some (data c)) cs.
Proof.
  intros Hov. unfold children. rewrite Hov. unfold Page_children.
  destruct (tags self); [|intros [= <-]; by left].
  destruct (negb _); [intros [= <-]; by left|].
  intros H. inv_bind H as ls Hls. inv_bind H as lp Hlp.
  apply (collect_loop _ ls [] lp) in Hlp as (ps & -> & Hsub & Hd);
    [|intros u p; apply Page_init_url].
  cbn [app] in H.
  assert (cs `sublist_of` ps) as Hcs.
  { destruct (any_tag self ["scp"; "splash"]).
    - injection H as <-. apply List_filter_sublist.
    - destruct (has_tag self "hub" && _); [|injection H as <-; apply sublist_nil_l].
      inv_bind H as found Hf. destruct found.
      + apply filter_gen_sublist in H. etrans; [exact H|].
        apply List_filter_sublist.
      + injection H as <-. apply List_filter_sublist. }
  right. exists ls. split; [done|]. split.
  - etrans; [|exact Hsub]. by apply map_sublist.
  - rewrite list.Forall_forall in Hd. apply list.Forall_forall.
    intros c Hc. apply Hd. by eapply elem_of_sublist.
Qed.

(** X7. [children()] never fails with [DBPage.DoesNotExist]: a link to
    a page the snapshot does not hold is passed over. *)
Theorem X7_children_skips_missing_pages fuel self :
  children sn fuel self ≠ Raise DBPage_DoesNotExist.
Proof.
  unfold children. destruct (children_attr self); [done|].
  unfold Page_children. destruct (tags self); [|done].
  destruct (negb _); [done|].
  destruct (links self) as [ls|e] eqn:El; cbn [mbind result_bind Py.bind].
  2:{ intros [= ->]. by apply links_raises in El as [?|?]. }
  destruct (for_each _ ls []) as [lp|e] eqn:Elp; cbn [mbind result_bind Py.bind].
  2:{ intros [= ->].
      apply (for_each_raises (λ e, e ≠ DBPage_DoesNotExist)) in Elp; [done|].
      intros s x e. apply collect_raises. }
  destruct (any_tag self ["scp"; "splash"]); [done|].
  destruct (has_tag self "hub" && _); [|done].
  destruct (any_gen _ _) as [found|e] eqn:Ea; cbn [mbind result_bind Py.bind].
  2:{ intros [= ->].
      apply (any_gen_raises (λ e, e ≠ DBPage_DoesNotExist)) in Ea; [done|].
      intros x e. apply backlinks_raises. }
  destruct found; [|done]. intros Hf.
  apply (filter_gen_raises (λ e, e ≠ DBPage_DoesNotExist)) in Hf; [done|].
  intros x e. apply backlinks_raises.
Qed.

(** X17. For a page tagged scp or splash, without a children override:
    [children()] returns the pages behind its links that are tagged
    supplement or splash, in the order of the links; the hub tags and
    the back links play no part. *)
Theorem X17_scp_children fuel self lpages :
  any_tag self ["scp"; "splash"] = true →
  children_attr self = None →
  resolved (λ u, Page_init sn fuel (Some u)) self = Ok lpages →
  children sn fuel self
  = Ok (List.filter (λ i, any_tag i ["supplement"; "splash"]) lpages).
Proof.
  intros Hscp Hov Hres. unfold children. rewrite Hov. unfold Page_children.
  assert (∃ ts, tags self = Some ts) as [ts Hts].
  { unfold any_tag, has_tag in Hscp. destruct (tags self); [eauto|].
    by vm_compute in Hscp. }
  rewrite Hts.
  assert (any_tag self ["scp"; "hub"; "goi2014"; "splash"] = true) as ->.
  { unfold any_tag in *. simpl in *.
    destruct (has_tag self "scp"); [done|]. simpl in Hscp.
    rewrite orb_false_r in Hscp. rewrite Hscp. by rewrite !orb_true_r. }
  cbn [negb]. unfold resolved in Hres. inv_bind Hres as ls Hls.
  rewrite Hls. cbn [mbind result_bind Py.bind]. rewrite Hres.
  cbn [mbind result_bind Py.bind]. by rewrite Hscp.
Qed.
End Children.

(* ===================================================================== *)
(** ** Links and quotes: tags renamed in place *)
(* ===================================================================== *)

Lemma heads_rel_trans gn ga gn' ga' o1 o2 o3 :
  heads_rel gn ga o1 o2 → heads_rel gn' ga' o2 o3 →
  heads_rel (gn' ∘ gn) (ga' ∘ ga) o1 o3.
Proof.
  destruct o1 as [[|j1 n1 a1 k1]|], o2 as [[|j2 n2 a2 k2]|],
    o3 as [[|j3 n3 a3 k3]|]; simpl; try done.
  intros (-> & -> & ->) (-> & -> & ->). done.
Qed.

Lemma heads_rel_ext gn ga gn' ga' o o' :
  (∀ nm, gn nm = gn' nm) → (∀ a, ga a = ga' a) →
  heads_rel gn ga o o' → heads_rel gn' ga' o o'.
Proof.
  intros Hn Ha. destruct o as [[|j n a k]|], o' as [[|j' n' a' k']|]; simpl;
    try done. rewrite Hn, Ha. done.
Qed.

Lemma heads_rel_first_some gn ga (l l' : list (option node)) :
  Forall2 (heads_rel gn ga) l l' →
  heads_rel gn ga (first_some l) (first_some l').
Proof.
  induction 1 as [|o o' l l' Ho _ IH]; [done|]. rewrite !first_some_cons.
  destruct o as [[|j n a k]|], o' as [[|j' n' a' k']|]; simpl in *; done.
Qed.

Lemma find_is_Elem x n m : find x n = Some m → ∃ nm a ks, m = Elem x nm a ks.
Proof.
  revert m. induction n as [s|j nm a ks IH] using node_ind'; [done|].
  intros m. simpl. case_decide as Hd.
  - intros [= <-]. subst. by eexists _, _, _.
  - induction IH as [|k ks' Hk _ IHks]; [done|]. simpl.
    rewrite first_some_cons. destruct (find x k) eqn:E; [|done].
    intros [= <-]. by apply Hk.
Qed.

Lemma heads_rel_refl o x n : o = find x n → heads_rel id id o o.
Proof.
  intros ->. destruct (find x n) as [m|] eqn:E; [|done].
  apply find_is_Elem in E as (nm & a & ks & ->). done.
Qed.

(** The tag changed shows the change; every other tag keeps its head. *)
Lemma find_update_head x i gn ga n :
  heads_rel (if decide (x = i) then gn else id) (if decide (x = i) then ga else id)
            (find x n) (find x (update i (head_map gn ga) n)).
Proof.
  induction n as [s|j nm a ks IH] using node_ind'; [done|].
  assert (heads_rel (if decide (x = i) then gn else id)
                    (if decide (x = i) then ga else id)
            (first_some (map (find x) ks))
            (first_some (map (find x) (map (update i (head_map gn ga)) ks))))
    as Hks.
  { apply heads_rel_first_some. induction IH as [|k ks Hk _ IHks]; simpl;
      by constructor. }
  simpl. destruct (decide (i = j)) as [->|Hij]; simpl.
  - destruct (decide (x = j)) as [->|Hxj]; [done|exact Hks].
  - destruct (decide (x = j)) as [->|Hxj]; [|exact Hks].
    by rewrite !decide_False by congruence.
Qed.

Lemma lookup_modify_head x i gn ga sp :
  heads_rel (if decide (x = i) then gn else id) (if decide (x = i) then ga else id)
            (lookup sp x) (lookup (modify i (head_map gn ga) sp) x).
Proof.
  unfold lookup, modify. simpl. apply heads_rel_first_some.
  induction (roots sp) as [|r rs IH]; simpl; constructor; [|done].
  apply find_update_head.
Qed.

Lemma lookup_is_Elem sp x m : lookup sp x = Some m → ∃ nm a ks, m = Elem x nm a ks.
Proof.
  unfold lookup. induction (roots sp) as [|r rs IH]; [done|]. simpl.
  rewrite first_some_cons. destruct (find x r) eqn:E; [|done].
  intros [= <-]. by eapply find_is_Elem.
Qed.

Lemma heads_rel_lookup_refl sp x : heads_rel id id (lookup sp x) (lookup sp x).
Proof.
  destruct (lookup sp x) as [m|] eqn:E; [|done].
  apply lookup_is_Elem in E as (nm & a & ks & ->). done.
Qed.

(** A loop that changes the heads of the tags [l], one after the other,
    by a change that done twice is as done once. *)
Lemma head_loop gn ga (body : soup → nat → soup) l :
  (∀ nm, gn (gn nm) = gn nm) → (∀ a, ga (ga a) = ga a) →
  (∀ sp i x, heads_rel (if decide (x = i) then gn else id)
                       (if decide (x = i) then ga else id)
                       (lookup sp x) (lookup (body sp i) x)) →
  ∀ sp x,
    heads_rel (if bool_decide (x ∈ l) then gn else id)
              (if bool_decide (x ∈ l) then ga else id)
              (lookup sp x) (lookup (fold_left body l sp) x).
Proof.
  intros Hgn Hga Hbody. induction l as [|i l IH]; intros sp x.
  - apply heads_rel_lookup_refl.
  - cbn [fold_left]. pose proof (heads_rel_trans _ _ _ _ _ _ _
                                   (Hbody sp i x) (IH (body sp i) x)) as H.
    revert H. apply heads_rel_ext.
    + intros nm. simpl. repeat (case_decide || case_bool_decide); subst;
        try done; set_solver.
    + intros a. simpl. repeat (case_decide || case_bool_decide); subst;
        try done; set_solver.
Qed.

Lemma links_head_idemp a :
  (set_class "link" ∘ del_str "href") ((set_class "link" ∘ del_str "href") a)
  = (set_class "link" ∘ del_str "href") a.
Proof. unfold compose, set_class, del_str. simpl. by rewrite delete_delete_eq. Qed.

Lemma links_turn sp i x :
  heads_rel (if decide (x = i) then λ _, "span" else id)
            (if decide (x = i) then set_class "link" ∘ del_str "href" else id)
    (lookup sp x)
    (lookup (modify i (map_attrs (set_class "link"))
               (modify i (set_name "span")
                  (modify i (map_attrs (del_str "href")) sp))) x).
Proof.
  pose proof (lookup_modify_head x i id (del_str "href") sp) as H1.
  pose proof (lookup_modify_head x i (λ _, "span") id
                (modify i (head_map id (del_str "href")) sp)) as H2.
  pose proof (lookup_modify_head x i id (set_class "link")
                (modify i (head_map (λ _, "span") id)
                   (modify i (head_map id (del_str "href")) sp))) as H3.
  pose proof (heads_rel_trans _ _ _ _ _ _ _
                (heads_rel_trans _ _ _ _ _ _ _ H1 H2) H3) as H.
  revert H. apply heads_rel_ext; intros ?; by case_decide.
Qed.

Lemma quotes_turn sp i x :
  heads_rel (if decide (x = i) then λ _, "div" else id)
            (if decide (x = i) then set_class "quote" else id)
    (lookup sp x)
    (lookup (modify i (map_attrs (set_class "quote"))
               (modify i (set_name "div") sp)) x).
Proof.
  pose proof (lookup_modify_head x i (λ _, "div") id sp) as H1.
  pose proof (lookup_modify_head x i id (set_class "quote")
                (modify i (head_map (λ _, "div") id) sp)) as H2.
  pose proof (heads_rel_trans _ _ _ _ _ _ _ H1 H2) as H.
  revert H. apply heads_rel_ext; intros ?; by case_decide.
Qed.

(** X8. [_parse_links] adds and removes no tag.  A tag that
    [data.select("a")] returned ends as a [span] of class [link] without
    [href], its other attributes as they were; every other tag keeps its
    name and its attributes. *)
Theorem X8_links_become_spans sp data x :
  let sp' := _parse_links sp data in
  let anchors := ids (select_in sp data [Desc (tag_ "a")]) in
  match lookup sp x, lookup sp' x with
  | None, None => True
  | Some n, Some n' =>
      if bool_decide (x ∈ anchors)
      then name n' = Some "span"
           ∧ a_class (attrs_of n') = Some (AStr "link")
           ∧ a_other (attrs_of n') = delete "href" (a_other (attrs_of n))
      else name n' = name n ∧ attrs_of n' = attrs_of n
  | _, _ => False
  end.
Proof.
  intros sp' anchors. subst sp'. unfold _parse_links. fold anchors.
  pose proof (head_loop (λ _, "span") (set_class "link" ∘ del_str "href")
                (λ sp i, modify i (map_attrs (set_class "link"))
                           (modify i (set_name "span")
                              (modify i (map_attrs (del_str "href")) sp)))
                anchors (λ _, eq_refl) links_head_idemp links_turn sp x) as H.
  destruct (lookup sp x) as [[|j nm a ks]|], (lookup (fold_left _ _ _) x)
    as [[|j' nm' a' ks']|]; simpl in *; try done.
  destruct H as (-> & -> & ->). by case_bool_decide.
Qed.

(** X9. [_parse_quotes] adds and removes no tag.  A tag that
    [data.select("blockquote")] returned ends as a [div] of class [quote],
    its other attributes as they were; every other tag keeps its name
    and its attributes. *)
Theorem X9_quotes_become_divs sp data x :
  let sp' := _parse_quotes sp data in
  let quotes := ids (select_in sp data [Desc (tag_ "blockquote")]) in
  match lookup sp x, lookup sp' x with
  | None, None => True
  | Some n, Some n' =>
      if bool_decide (x ∈ quotes)
      then name n' = Some "div"
           ∧ a_class (attrs_of n') = Some (AStr "quote")
           ∧ a_other (attrs_of n') = a_other (attrs_of n)
      else name n' = name n ∧ attrs_of n' = attrs_of n
  | _, _ => False
  end.
Proof.
  intros sp' quotes. subst sp'. unfold _parse_quotes. fold quotes.
  pose proof (head_loop (λ _, "div") (set_class "quote")
                (λ sp i, modify i (map_attrs (set_class "quote"))
                           (modify i (set_name "div") sp))
                quotes (λ _, eq_refl) (λ _, eq_refl) quotes_turn sp x) as H.
  destruct (lookup sp x) as [[|j nm a ks]|], (lookup (fold_left _ _ _) x)
    as [[|j' nm' a' ks']|]; simpl in *; try done.
  destruct H as (-> & -> & ->). by case_bool_decide.
Qed.

(* ===================================================================== *)
(** ** Strings: prefixes and separators *)
(* ===================================================================== *)

Lemma str_nil_app (b : string) : "" +:+ b = b.
Proof. reflexivity. Qed.

Lemma str_cons_app x (a b : string) : String x a +:+ b = String x (a +:+ b).
Proof. reflexivity. Qed.

Ltac str_simpl := rewrite ?str_nil_app, ?str_cons_app in *; simpl in *.

Lemma str_app_assoc (a b c : string) : (a +:+ b) +:+ c = a +:+ (b +:+ c).
Proof. induction a as [|x a IH]; str_simpl; [done|]. by f_equal. Qed.

Lemma str_app_nil_r (a : string) : a +:+ "" = a.
Proof. induction a as [|x a IH]; str_simpl; [done|]. by f_equal. Qed.

Lemma str_length_app (a b : string) :
  String.length (a +:+ b) = String.length a + String.length b.
Proof. induction a as [|x a IH]; str_simpl; [done|]. by f_equal. Qed.

Lemma string_drop_app (p r : string) : string_drop (String.length p) (p +:+ r) = r.
Proof. induction p as [|x p IH]; str_simpl; [by destruct r|done]. Qed.

Lemma startswith_app (p r : string) : startswith p (p +:+ r) = true.
Proof.
  induction p as [|x p IH]; str_simpl; [done|].
  by rewrite bool_decide_eq_true_2, IH.
Qed.

Lemma startswith_spec (p s : string) :
  startswith p s = true → s = p +:+ string_drop (String.length p) s.
Proof.
  revert s. induction p as [|x p IH]; intros s; simpl; [by destruct s|].
  destruct s as [|y s]; [done|]. intros [Hxy Hp]%andb_true_iff.
  apply bool_decide_eq_true in Hxy as ->. rewrite str_cons_app. f_equal.
  by apply IH.
Qed.

Lemma split_once_eq sep s :
  split_once sep s =
    if startswith sep s then Some ("", string_drop (String.length sep) s)
    else match s with
         | EmptyString => None
         | String c s' =>
             match split_once sep s' with
             | Some (a, b) => Some (String c a, b)
             | None => None
             end
         end.
Proof. by destruct s. Qed.

(** What [split_once] finds is an occurrence of the separator... *)
Lemma split_once_Some sep s a b :
  split_once sep s = Some (a, b) → s = a +:+ sep +:+ b.
Proof.
  revert a. induction s as [|c s IH]; intros a; rewrite split_once_eq.
  - destruct (startswith sep "") eqn:E; [|done]. intros [= <- <-].
    by apply startswith_spec in E.
  - destruct (startswith sep (String c s)) eqn:E.
    + intros [= <- <-]. by apply startswith_spec in E.
    + destruct (split_once sep s) as [[a0 b0]|]; [|done].
      intros [= <- <-]. rewrite str_cons_app. f_equal. by apply IH.
Qed.

(** ... and the first one. *)
Lemma split_once_first sep s a b a' b' :
  split_once sep s = Some (a, b) → s = a' +:+ sep +:+ b' →
  String.length a ≤ String.length a'.
Proof.
  revert a a'. induction s as [|c s IH]; intros a a'; rewrite split_once_eq.
  - destruct (startswith sep ""); [|done]. intros [= <- <-] _. simpl. lia.
  - destruct (startswith sep (String c s)) eqn:E.
    + intros [= <- <-] _. simpl. lia.
    + destruct (split_once sep s) as [[a0 b0]|] eqn:E0; [|done].
      intros [= <- <-] Hs. destruct a' as [|c' a'].
      * rewrite str_nil_app in Hs. rewrite Hs, startswith_app in E. done.
      * rewrite str_cons_app in Hs. injection Hs as -> Hs. simpl.
        apply le_n_S. by eapply IH.
Qed.

Lemma split_once_None sep s a' b' :
  split_once sep s = None → s ≠ a' +:+ sep +:+ b'.
Proof.
  revert a'. induction s as [|c s IH]; intros a'; rewrite split_once_eq.
  - destruct (startswith sep "") eqn:E; [done|]. intros _ Hs.
    destruct a'; [|done]. rewrite str_nil_app in Hs.
    by rewrite Hs, startswith_app in E.
  - destruct (startswith sep (String c s)) eqn:E; [done|].
    destruct (split_once sep s) as [[a0 b0]|] eqn:E0; [done|].
    intros _ Hs. destruct a' as [|c' a'].
    + rewrite str_nil_app in Hs. by rewrite Hs, startswith_app in E.
    + rewrite str_cons_app in Hs. injection Hs as -> Hs. by eapply IH.
Qed.

(** Two ways to cut one text: the shorter head is a head of the longer. *)
Lemma str_app_cut (a b c d : string) :
  a +:+ b = c +:+ d → String.length a ≤ String.length c →
  ∃ z, c = a +:+ z ∧ b = z +:+ d.
Proof.
  revert c. induction a as [|x a IH]; intros c.
  - rewrite str_nil_app. intros -> _. by exists c.
  - destruct c as [|y c]; [simpl; lia|]. rewrite !str_cons_app.
    intros [= -> H] Hlen. simpl in Hlen.
    destruct (IH c H) as (z & -> & ->); [lia|]. by exists z.
Qed.

(* ===================================================================== *)
(** ** The scrapers *)
(* ===================================================================== *)

(** X10. The page id [pageid] finds is the text between the first
    [pageId = ] of the markup and the semicolon that comes next; it finds
    none exactly when the markup has no [pageId = ] with a semicolon
    somewhere after it. *)
Theorem X10_pageid_between_marker_and_semicolon html :
  match pageid html with
  | Some id =>
      ∃ pre post,
        html = pre +:+ "pageId = " +:+ id +:+ ";" +:+ post
        ∧ (∀ a b, html = a +:+ "pageId = " +:+ b →
                  String.length pre ≤ String.length a)
        ∧ (∀ a b, id ≠ a +:+ ";" +:+ b)
  | None => ∀ pre id post, html ≠ pre +:+ "pageId = " +:+ id +:+ ";" +:+ post
  end.
Proof.
  unfold pageid. destruct (split_once "pageId = " html) as [[pre rest]|] eqn:E1.
  2:{ simpl. intros pre id post. by apply split_once_None. }
  cbn [mbind option_bind]. destruct (split_once ";" rest) as [[id post]|] eqn:E2.
  - cbn [mbind option_bind]. exists pre, post.
    pose proof (split_once_Some _ _ _ _ E1) as ->.
    pose proof (split_once_Some _ _ _ _ E2) as ->. split; [done|]. split.
    + intros a b Hab. by eapply split_once_first.
    + intros a b ->. rewrite !str_app_assoc in E2.
      pose proof (split_once_first _ _ _ _ a (b +:+ ";" +:+ post) E2) as Hlen.
      rewrite !str_length_app in Hlen. simpl in Hlen.
      specialize (Hlen eq_refl). lia.
  - cbn [mbind option_bind]. intros pre' id post Hhtml.
    pose proof (split_once_Some _ _ _ _ E1) as Hpre.
    pose proof (split_once_first _ _ _ _ pre' (id +:+ ";" +:+ post) E1 Hhtml)
      as Hlen.
    rewrite Hpre in Hhtml.
    rewrite <- !(str_app_assoc pre), <- !(str_app_assoc pre') in Hhtml.
    rewrite <- (str_app_assoc (pre' +:+ "pageId = ")) in Hhtml.
    apply str_app_cut in Hhtml as (z & _ & Hrest);
      [|rewrite !str_length_app; simpl; lia].
    by apply split_once_None with (a' := z) (b' := post) in E2.
Qed.

(** X11. A row of the rewrite table is read back as it was written: the
    author cell is the marker [:override:], or nothing, followed by the
    author that [_scrape_rewrites] yields, with the override flag set
    exactly when the cell begins with the marker; the url is the site's
    for the name in the first cell. *)
Theorem X11_rewrite_row_round_trip i r :
  rewrite_entry i = Ok r →
  ∃ c0 c1,
    select [Desc (tag_ "td")] i !! 0 = Some c0
    ∧ select [Desc (tag_ "td")] i !! 1 = Some c1
    ∧ rr_url r = site +:+ "/" +:+ text c0
    ∧ text c1 = (if rr_override r then ":override:" else "") +:+ rr_author r
    ∧ rr_override r = startswith ":override:" (text c1).
Proof.
  unfold rewrite_entry, item. intros H.
  destruct (select [Desc (tag_ "td")] i !! 0) as [c0|]; [|done].
  destruct (select [Desc (tag_ "td")] i !! 1) as [c1|]; [|done].
  cbn [mbind result_bind Py.bind] in H. exists c0, c1. do 2 (split; [done|]).
  destruct (startswith ":override:" (text c1)) eqn:E; injection H as <-;
    simpl; repeat split.
  by apply startswith_spec in E.
Qed.

(** X12. An entry of a series page is read into its number and its
    title at the first [ - ] of its text, or, when the text has no [ - ],
    at the first comma followed by a blank: joined by that separator,
    number and title give the text back.  With neither separator in its
    text, an entry that has a link makes the scraper raise
    [ValueError]. *)
Theorem X12_title_entry_splits_text i :
  (∀ r, title_entry i = Ok r →
     ∃ sep, (sep = " - " ∨ sep = ", " ∧ ∀ a b, text i ≠ a +:+ " - " +:+ b)
            ∧ text i = tr_skip r +:+ sep +:+ tr_title r
            ∧ (∀ a b, text i = a +:+ sep +:+ b →
                      String.length (tr_skip r) ≤ String.length a)
            ∧ ∃ a, first_tag "a" i = Some a
                   ∧ String.append site <$> get_str "href" a = Some (tr_url r))
  ∧ ((∀ a b, text i ≠ a +:+ " - " +:+ b) → (∀ a b, text i ≠ a +:+ ", " +:+ b) →
     ∀ a, first_tag "a" i = Some a → is_Some (get_str "href" a) →
     title_entry i = Raise ValueError).
Proof.
  unfold title_entry, split_max1. split.
  - intros r H. destruct (first_tag "a" i) as [a|]; [|done].
    destruct (get_str "href" a) as [href|] eqn:Eh; [|done].
    destruct (split_once " - " (text i)) as [[s t]|] eqn:E1.
    + cbn in H. injection H as <-. exists " - ". simpl.
      split; [by left|]. split; [by apply split_once_Some|].
      split; [intros ??; by eapply split_once_first|].
      exists a. by rewrite Eh.
    + cbn [unpack2] in H.
      destruct (split_once ", " (text i)) as [[s t]|] eqn:E2; [|done].
      cbn in H. injection H as <-. exists ", ". simpl.
      split; [right; split; [done|]; intros ??; by apply split_once_None|].
      split; [by apply split_once_Some|].
      split; [intros ??; by eapply split_once_first|].
      exists a. by rewrite Eh.
  - intros H1 H2 a -> [href ->].
    destruct (split_once " - " (text i)) as [[s t]|] eqn:E1.
    { apply split_once_Some in E1. by destruct (H1 s t). }
    destruct (split_once ", " (text i)) as [[s t]|] eqn:E2.
    { apply split_once_Some in E2. by destruct (H2 s t). }
    done.
Qed.

(* ===================================================================== *)
(** ** [utils.split] *)
(* ===================================================================== *)

Lemma string_drop_length n s :
  String.length (string_drop n s) = String.length s - n.
Proof.
  revert s. induction n as [|n IH]; intros s; simpl; [lia|].
  destruct s as [|c s]; simpl; [done|]. apply IH.
Qed.

Lemma match_here_Some ds s d :
  Utils.match_here ds s = Some d →
  d ∈ ds ∧ s = d +:+ string_drop (String.length d) s.
Proof.
  unfold Utils.match_here. intros H. apply find_some in H as [Hin Hd].
  split; [by apply list_elem_of_In|]. by apply startswith_spec.
Qed.

Lemma match_here_None ds s d r :
  Utils.match_here ds s = None → d ∈ ds → s ≠ d +:+ r.
Proof.
  unfold Utils.match_here. intros H Hd ->.
  pose proof (find_none _ _ H d (proj1 (list_elem_of_In _ _) Hd)) as Hno.
  simpl in Hno. by rewrite startswith_app in Hno.
Qed.

Lemma weave_head p ps seps : length ps = length seps →
  ∃ t, weave (p :: ps) seps = p +:+ t.
Proof.
  intros Hlen. destruct seps as [|d ds]; simpl.
  - exists "". by rewrite str_app_nil_r.
  - by eexists.
Qed.

Lemma weave_push c p ps seps :
  weave (String c p :: ps) seps = String c (weave (p :: ps) seps).
Proof. by destruct seps. Qed.

(** The pieces of [split_from], with enough fuel for the text. *)
Lemma split_from_spec ds : Forall (λ d, d ≠ "") ds →
  ∀ fuel s, String.length s ≤ fuel →
    ∃ seps,
      length (Utils.split_from fuel ds s) = S (length seps)
      ∧ Forall (λ d, d ∈ ds) seps
      ∧ weave (Utils.split_from fuel ds s) seps = s
      ∧ Forall (λ p, ∀ d a b, d ∈ ds → p ≠ a +:+ d +:+ b)
               (Utils.split_from fuel ds s).
Proof.
  intros Hne. rewrite list.Forall_forall in Hne.
  induction fuel as [|fuel IH]; intros s Hlen.
  { destruct s as [|c s]; [|simpl in Hlen; lia]. exists []. simpl.
    repeat split; [done|]. constructor; [|done]. intros d a b Hd Heq.
    destruct a; [|done]. rewrite str_nil_app in Heq. destruct d; [|done].
    by apply (Hne "" Hd). }
  destruct s as [|c s].
  { exists []. simpl. repeat split; [done|]. constructor; [|done].
    intros d a b Hd Heq. destruct a; [|done]. rewrite str_nil_app in Heq.
    destruct d; [|done]. by apply (Hne "" Hd). }
  cbn [Utils.split_from].
  destruct (Utils.match_here ds (String c s)) as [d|] eqn:Em.
  - apply match_here_Some in Em as [Hd Hs].
    set (rest := string_drop (String.length d) (String c s)) in *.
    assert (String.length rest ≤ fuel) as Hrest.
    { subst rest. rewrite string_drop_length. simpl in *.
      destruct d as [|x d]; [by destruct (Hne "" Hd)|]. simpl. lia. }
    destruct (IH rest Hrest) as (seps & Hl & Hin & Hw & Hfree).
    exists (d :: seps). simpl. rewrite Hl. split; [done|].
    split; [by constructor|]. split.
    + rewrite Hw, str_nil_app. by rewrite <- Hs.
    + constructor; [|done]. intros d' a b Hd' Heq.
      destruct a; [|done]. rewrite str_nil_app in Heq. destruct d'; [|done].
      by apply (Hne "" Hd').
  - destruct (IH s) as (seps & Hl & Hin & Hw & Hfree); [simpl in Hlen; lia|].
    destruct (Utils.split_from fuel ds s) as [|p ps] eqn:Ep; [done|].
    exists seps. cbn [Utils.push]. split; [exact Hl|]. split; [done|]. split.
    + by rewrite weave_push, Hw.
    + apply list.Forall_cons in Hfree as [Hp Hps]. constructor; [|done].
      simpl in Hl.
      intros d a b Hd Heq. destruct a as [|x a].
      * rewrite str_nil_app in Heq.
        destruct (weave_head p ps seps) as [t Ht]; [lia|].
        apply (match_here_None ds (String c s) d (b +:+ t) Em Hd).
        rewrite <- Hw, Ht, <- str_cons_app, Heq. by rewrite str_app_assoc.
      * rewrite str_cons_app in Heq. injection Heq as -> Heq.
        by apply (Hp d a b).
Qed.

(** X13. [split(text, delimeters)] with at least one delimiter, none of
    them empty, cuts the text at delimiters and loses nothing else: there
    is one delimiter for every two neighbouring pieces, such that pieces
    and delimiters in their order make up the text; and no piece holds a
    delimiter. *)
Theorem X13_split_pieces text delimeters :
  delimeters ≠ [] → Forall (λ d, d ≠ "") delimeters →
  ∃ seps,
    length (Utils.split text delimeters) = S (length seps)
    ∧ Forall (λ d, d ∈ delimeters) seps
    ∧ weave (Utils.split text delimeters) seps = text
    ∧ Forall (λ p, ∀ d a b, d ∈ delimeters → p ≠ a +:+ d +:+ b)
             (Utils.split text delimeters).
Proof. intros _ Hne. by apply split_from_spec. Qed.

(* ===================================================================== *)
(** ** [get_all]: the pages of the table, page by page *)
(* ===================================================================== *)

(** The pages that cover the rows, one after the other, are the rows. *)
Lemma paginate_concat {A} per k : 0 < per → ∀ rows : list A,
  length rows ≤ k * per →
  concat (map (λ n, paginate n per rows) (seq 1 k)) = rows.
Proof.
  intros Hper. induction k as [|k IH]; intros rows Hlen.
  - simpl in *. destruct rows; [done|simpl in Hlen; lia].
  - cbn [seq map concat]. rewrite <- seq_shift, map_map.
    rewrite (map_ext_in _ (λ n, paginate n per (drop per rows))).
    2:{ intros n [Hn _]%in_seq. unfold paginate. rewrite drop_drop.
        do 2 f_equal. destruct n as [|n]; [lia|]. simpl. lia. }
    rewrite IH by (rewrite length_drop; simpl in Hlen; lia).
    unfold paginate. simpl. rewrite drop_0. apply take_drop.
Qed.

Lemma for_each_concat {S X Y} (body : S → X → result S) (g : Y → list X) ns st :
  for_each (λ st n, for_each body (g n) st) ns st
  = for_each body (concat (map g ns)) st.
Proof.
  revert st. induction ns as [|n ns IH]; intros st; simpl; [done|].
  rewrite for_each_app. destruct (for_each body (g n) st); simpl; [apply IH|done].
Qed.

Lemma for_each_collects {X Y} (f : X → result Y) l acc :
  for_each (λ acc x, y ← f x; Ok (acc ++ [y])) l acc
  = (ys ← map_gen f l; Ok (acc ++ ys)).
Proof.
  revert acc. induction l as [|x l IH]; intros acc; simpl.
  - by rewrite app_nil_r.
  - destruct (f x) as [y|e]; simpl; [|done]. rewrite IH.
    destruct (map_gen f l); simpl; [|done]. by rewrite <- app_assoc.
Qed.

Lemma url_le_total : Total url_le.
Proof. intros a b. apply String.leb_total. Qed.

Lemma ordered_urls_keys sn : ordered_urls sn ≡ₚ (map_to_list (Snapshot.DBPage sn)).*1.
Proof. apply merge_sort_Permutation. Qed.

Lemma ordered_urls_length sn : length (ordered_urls sn) = size (Snapshot.DBPage sn).
Proof.
  rewrite (Permutation_length (ordered_urls_keys sn)).
  by rewrite length_fmap, length_map_to_list.
Qed.

Section GetAllFacts.
Context {ext : External} (sn : Snapshot.t).

(** Paging changes nothing: [get_all] builds the page of every url of
    the table, in the order of the query. *)
Lemma get_all_unfold fuel :
  get_all sn fuel = map_gen (λ u, Page_init sn fuel (Some u)) (ordered_urls sn).
Proof.
  unfold get_all.
  rewrite (for_each_concat
             (λ pages u, p ← Page_init sn fuel (Some u); Ok (pages ++ [p]))
             (λ n, paginate n 50 (ordered_urls sn))).
  rewrite paginate_concat; [|lia|].
  - rewrite for_each_collects. by destruct (map_gen _ _).
  - rewrite ordered_urls_length.
    pose proof (Nat.div_mod_eq (size (Snapshot.DBPage sn)) 50) as Hd.
    pose proof (Nat.mod_upper_bound (size (Snapshot.DBPage sn)) 50) as Hm.
    lia.
Qed.

(** X14. When [get_all] runs to its end, it has yielded one page for
    every url of the page table and no other: the pages' urls are the
    urls of the table in ascending byte order, none left out at a page
    boundary and none yielded twice. *)
Theorem X14_get_all_every_page_once fuel ps :
  get_all sn fuel = Ok ps →
  map url ps = map Some (ordered_urls sn)
  ∧ Sorted url_le (ordered_urls sn)
  ∧ NoDup (map url ps)
  ∧ ∀ u, Some u ∈ map url ps ↔ is_Some (Snapshot.DBPage sn !! u).
Proof.
  rewrite get_all_unfold. intros H. apply map_gen_Forall2 in H.
  assert (map url ps = map Some (ordered_urls sn)) as Hurls.
  { induction H as [|u p us ps Hp _ IH]; [done|]. simpl.
    by rewrite (Page_init_url sn fuel u p Hp), IH. }
  split; [done|]. split; [apply Sorted_merge_sort, url_le_total|].
  rewrite Hurls. split.
  - apply (NoDup_fmap_2 Some). rewrite (ordered_urls_keys sn).
    apply NoDup_fst_map_to_list.
  - intros u. split.
    + intros Hin. apply list_elem_of_In, in_map_iff in Hin as (u' & [= ->] & Hin).
      apply list_elem_of_In in Hin. rewrite (ordered_urls_keys sn) in Hin.
      apply list_elem_of_fmap in Hin as ([u' pd] & -> & Hin).
      apply elem_of_map_to_list in Hin. by eexists.
    + intros [pd Hpd]. apply list_elem_of_In, in_map_iff. exists u.
      split; [done|]. apply list_elem_of_In. rewrite (ordered_urls_keys sn).
      apply list_elem_of_fmap. exists (u, pd). split; [done|].
      by apply elem_of_map_to_list.
Qed.
End GetAllFacts.

(* ===================================================================== *)
(** ** [links]: distinct addresses of the site *)
(* ===================================================================== *)

Lemma rstrip_head p c t : p c = false → ∃ r, rstrip p (String c t) = String c r.
Proof.
  intros Hc. simpl. destruct (rstrip p t); rewrite ?Hc; by eexists.
Qed.

(** Stripping at the right end stops at the latest before a character
    that is not stripped. *)
Lemma rstrip_prefix p a c t :
  p c = false → ∃ r, rstrip p (a +:+ String c t) = a +:+ String c r.
Proof.
  intros Hc. induction a as [|x a [r IH]].
  - rewrite str_nil_app. destruct (rstrip_head p c t Hc) as [r Hr].
    exists r. by rewrite str_nil_app.
  - exists r. rewrite !str_cons_app. cbn [rstrip]. rewrite IH.
    destruct a; by rewrite ?str_nil_app, ?str_cons_app.
Qed.

Lemma links_body_keeps (acc : list string) a acc' :
  links_body acc a = Ok acc' →
  NoDup acc → Forall (λ u, ∃ r, u = site +:+ "/" +:+ r) acc →
  NoDup acc' ∧ Forall (λ u, ∃ r, u = site +:+ "/" +:+ r) acc'.
Proof.
  unfold links_body. intros H Hnd Hsite.
  destruct (get_str "href" a) as [[|c h]|]; [done| |by injection H as <-].
  case_bool_decide as Hc; [|by injection H as <-]. subst c. cbn [negb] in H.
  case_bool_decide; [by injection H as <-|].
  case_bool_decide as Hin; injection H as <-; [done|]. split.
  - apply NoDup_app. split; [done|]. split; [|apply NoDup_singleton].
    intros u Hu ->%list_elem_of_singleton. done.
  - apply Forall_app. split; [done|]. constructor; [|done].
    destruct (rstrip_prefix (is_char "|"%char) site "/"%char h eq_refl) as [r Hr].
    exists r. exact Hr.
Qed.

(** X15. The addresses [links()] returns are distinct, and each is the
    site's address followed by a slash and a path. *)
Theorem X15_links_distinct_under_site self ls :
  links self = Ok ls →
  NoDup ls ∧ ∀ u, u ∈ ls → ∃ r, u = site +:+ "/" +:+ r.
Proof.
  unfold links. destruct (_raw_html self) as [doc|]; [|done]. intros H.
  eapply (for_each_inv (λ acc, NoDup acc
            ∧ Forall (λ u, ∃ r, u = site +:+ "/" +:+ r) acc)) in H.
  - destruct H as [Hnd Hs]. split; [done|]. by apply list.Forall_forall.
  - intros acc a acc' _ [Hnd Hs] Hb. by eapply links_body_keeps.
  - split; [apply NoDup_nil_2|constructor].
Qed.

(* ===================================================================== *)
(** ** Sample pages *)
(* ===================================================================== *)

Import Sample.

(** C2, on a hub tagged hub and tale with two tales behind its links, of
    which the second links back: the second is the only child. *)
Lemma C2_hub_children_witness :
  urls (children (ext:=ext) (hubs ["hub"; "tale"]) 1 (page (hubs ["hub"; "tale"]) "a-hub"))
  = Ok [Some (at_ "tale-b")].
Proof.
  set (sn := hubs ["hub"; "tale"]). set (self := page sn "a-hub").
  set (lpages := [page sn "tale-a"; page sn "tale-b"]).
  assert (has_tag self "hub" = true) as H1 by (vm_compute; reflexivity).
  assert (any_tag self ["tale"; "goi2014"] = true) as H2 by (vm_compute; reflexivity).
  assert (any_tag self ["scp"; "splash"] = false) as H3 by (vm_compute; reflexivity).
  assert (children_attr self = None) as H4 by (vm_compute; reflexivity).
  assert (resolved (λ u, Page_init (ext:=ext) sn 1 (Some u)) self = Ok lpages) as H5
    by (vm_compute; reflexivity).
  assert (∀ c, c ∈ List.filter tag_matched lpages → is_ok (backlinks self c) = true)
    as H6.
  { apply list.Forall_forall. apply (bool_decide_unpack _). vm_compute. exact I. }
  rewrite (C2_hub_children (ext:=ext) sn 1 self lpages H1 H2 H3 H4 H5 H6).
  vm_compute. reflexivity.
Defined.

(** The same hub tagged scp as well: the second tale is a confirmed
    candidate, and [children()] is empty. *)
Lemma C2_hub_tagged_scp_counterexample :
  let sn := hubs ["hub"; "tale"; "scp"] in
  let self := page sn "a-hub" in
  has_tag self "hub" = true ∧ has_tag self "tale" = true
  ∧ List.filter tag_matched [page sn "tale-a"; page sn "tale-b"]
    = [page sn "tale-a"; page sn "tale-b"]
  ∧ confirmed self (page sn "tale-b") = true
  ∧ children (ext:=ext) sn 1 self = Ok [].
Proof. vm_compute. repeat split; reflexivity. Qed.

(** C3, on a tab view of two titles and two blocks, and on one of one
    title and two blocks. *)
Lemma C3_tab_titles_count_witness :
  is_ok (tabview_body (tabbed ["A"; "B"] [[Text "x"]; [Text "y"]]) 10) = true
  ∧ tabview_body (tabbed ["A"] [[Text "x"]; [Text "y"]]) 10 = Raise IndexError.
Proof.
  split.
  - destruct (C3_tab_titles_count (tabbed ["A"; "B"] [[Text "x"]; [Text "y"]]) 10)
      as [Henough _].
    destruct Henough as [(sp2 & Hloop & ->) _]; [vm_compute; lia|].
    vm_compute in Hloop. injection Hloop as <-. vm_compute. reflexivity.
  - destruct (C3_tab_titles_count (tabbed ["A"] [[Text "x"]; [Text "y"]]) 10)
      as [_ Hshort].
    apply Hshort; [vm_compute; reflexivity | vm_compute; lia].
Defined.

(** Three titles and two blocks: the pass completes, the blocks get the
    first two titles, and the third is dropped. *)
Lemma C3_surplus_title_counterexample :
  let sp := tabbed ["A"; "B"; "C"] [[Text "x"]; [Text "y"]] in
  length (tab_titles sp 10) = 3 ∧ length (tab_blocks sp 10) = 2
  ∧ heads [60; 61] <$> _parse_tabviews sp 2 = Ok [Some "A"; Some "B"].
Proof. vm_compute. repeat split; reflexivity. Qed.

(** C4, on a tale first written by alice, then edited by carol, with a
    rewrite row for bob that does not override. *)
Lemma C4_authors_chain_witness :
  authors (page (authored (Some (Snapshot.mkRewrite "bob" false))) "a-tale")
  = [au "alice" original; au "bob" rewrite].
Proof.
  set (sn := authored (Some (Snapshot.mkRewrite "bob" false))).
  assert (Page_init (ext:=ext) sn 2 (Some (at_ "a-tale")) = Ok (page sn "a-tale"))
    as H1 by (vm_compute; reflexivity).
  assert (history (page sn "a-tale")
          = [mkRevision 0 "alice" "01 Jan 2014 09:00" "new";
             mkRevision 1 "carol" "02 Jan 2014 10:00" "typo"])
    as H2 by (vm_compute; reflexivity).
  pose proof (C4_authors_chain (ext:=ext) sn 2 _ _ _ _ H1 H2) as H.
  vm_compute in H. vm_compute. exact H.
Defined.



(** C6, on scp-2998 and the nine pages of its range. *)
Lemma C6_children_override_witness :
  ∃ new_children,
    (∀ fuel, children (ext:=ext) ranged fuel (page ranged "scp-2998") = Ok new_children)
    ∧ map url new_children
      = map (λ n, Some (at_ "scp-2998" +:+ "-" +:+ str_of_nat n)) (seq 2 9).
Proof.
  assert (("scp-2998", _inrange (seq 2 9)) ∈ ov_children) as Hin by (by left).
  assert (Page_init (ext:=ext) ranged 2 (Some (site +:+ "/" +:+ "scp-2998"))
          = Ok (page ranged "scp-2998")) as Hp by (vm_compute; reflexivity).
  destruct (C6_children_override (ext:=ext) ranged 1 _ _ _ Hin Hp)
    as (new_children & Hc & Hm).
  exists new_children. split; [exact Hc|].
  vm_compute in Hm. injection Hm as <-. vm_compute. reflexivity.
Defined.

(** C7, on a tale. *)
Lemma C7_children_empty_witness :
  children (ext:=ext) discussed 1 (page discussed "a-tale") = Ok [].
Proof.
  apply (C7_children_empty_without_resolver_tags (ext:=ext) discussed 2 1
           (Some (at_ "a-tale"))).
  - vm_compute. reflexivity.
  - vm_compute. reflexivity.
  - vm_compute. discriminate.
Defined.

(** scp-2998 without a tag: nine children. *)
Lemma C7_untagged_range_counterexample :
  tags (page ranged "scp-2998") = Some []
  ∧ length <$> children (ext:=ext) ranged 1 (page ranged "scp-2998") = Ok 9.
Proof. vm_compute. split; reflexivity. Qed.

(** C8, on a content region of five anchors. *)
Lemma C8_links_witness :
  links (linked ["/foo"; "http://x.org/y"; "/pic.png"; "/foo"; "/bar|"])
  = Ok [site +:+ "/foo"; site +:+ "/bar"].
Proof.
  set (self := linked ["/foo"; "http://x.org/y"; "/pic.png"; "/foo"; "/bar|"]).
  destruct (C8_links self (default (Text "") (_raw_html self))) as [H _].
  - vm_compute. reflexivity.
  - apply list.Forall_forall. apply (bool_decide_unpack _). vm_compute. exact I.
  - rewrite H. vm_compute. reflexivity.
Defined.

(** An anchor whose [href] ends in a bar is listed under another address
    than its target; an anchor with an empty [href] makes [links()]
    raise. *)
Lemma C8_bar_and_empty_href_counterexample :
  targets (default (Text "") (_raw_html (linked ["/bar|"]))) = [site +:+ "/bar|"]
  ∧ links (linked ["/bar|"]) = Ok [site +:+ "/bar"]
  ∧ links (linked ["/foo"; ""]) = Raise IndexError.
Proof. vm_compute. repeat split; reflexivity. Qed.

(** C10, on a tab view of two blocks of equal markup. *)
Lemma C10_title_by_own_position_witness :
  let sp := tabbed ["A"; "B"] [[Text "x"]; [Text "x"]] in
  tabview_body sp 10 =
    (sp2 ← for_each (tab_body_by_position ["A"; "B"] (fresh sp))
                    [(0, 60); (1, 61)] (tab_soup sp);
     replace_with sp2 10 (fresh sp)).
Proof.
  intros sp.
  rewrite (C10_title_by_own_position sp 10); [|vm_compute; reflexivity].
  reflexivity.
Defined.

(** Two blocks of equal markup under the titles A and B: the second block
    gets B. *)
Lemma C10_equal_blocks_counterexample :
  let sp := tabbed ["A"; "B"] [[Text "x"]; [Text "x"]] in
  py_eq sp 60 61 = true
  ∧ heads [60; 61] <$> _parse_tabviews sp 2 = Ok [Some "A"; Some "B"].
Proof. vm_compute. split; reflexivity. Qed.

(** A second block whose markup begins with a title block reading A and
    goes on as the first block: once the first block is rewritten it
    equals the second, the search stops there, and both blocks get the
    title A; with the one title A for the two blocks, no lookup fails.
    Such a tab view is not [tab_ready]. *)
Lemma tab_block_like_rewritten :
  let blocks :=
    [[Text "x"]; [Elem 70 "div" (cl "tab-title") [Text "A"]; Text "x"]] in
  let sp := tabbed ["A"; "B"] blocks in
  tab_ready sp (tab_blocks sp 10) = false
  ∧ heads [60; 61] <$> _parse_tabviews sp 2 = Ok [Some "A"; Some "A"]
  ∧ heads [60; 61] <$> _parse_tabviews (tabbed ["A"] blocks) 2
    = Ok [Some "A"; Some "A"].
Proof. vm_compute. repeat split; reflexivity. Qed.

(** X1, on a tale. *)
Lemma X1_content_witness : data (page discussed "a-tale") ≠ None.
Proof.
  assert (Page_init (ext:=ext) discussed 2 (Some (at_ "a-tale"))
          = Ok (page discussed "a-tale")) as H by (vm_compute; reflexivity).
  destruct (X1_content_absent_only_by_override (ext:=ext) discussed 2 _ _ [] H)
    as [Hiff _].
  intros Hd. apply Hiff in Hd. vm_compute in Hd. discriminate.
Defined.

(** X2, on a tale with two images. *)
Lemma X2_images_witness :
  images (page illustrated "a-tale") = [present]
  ∧ is_Some (Snapshot.images illustrated !! present).
Proof.
  split; [vm_compute; reflexivity|].
  apply (X2_images_are_catalog_urls (ext:=ext) illustrated 2
           (Some (at_ "a-tale")) (page illustrated "a-tale")).
  - vm_compute. reflexivity.
  - vm_compute. left.
Defined.


(** X4, on a tale whose history table has no revision. *)
Lemma X4_empty_history_witness :
  Page_init (ext:=ext) unrevised 1 (Some (at_ "a-tale")) = Raise IndexError.
Proof.
  eapply (X4_empty_history_raises (ext:=ext) unrevised 0 (at_ "a-tale")).
  - vm_compute. reflexivity.
  - reflexivity.
  - vm_compute. reflexivity.
  - vm_compute. reflexivity.
Defined.

(** X5, on the history of two revisions: the last row comes first. *)
Lemma X5_history_witness :
  ∃ p r, _parse_history (ext:=ext) (blank None) history_table = Ok p
         ∧ history p !! 0 = Some r ∧ user r = "alice".
Proof.
  destruct (_parse_history (ext:=ext) (blank None) history_table) as [p|e] eqn:E;
    [|vm_compute in E; discriminate].
  destruct (X5_history_reversed (ext:=ext) _ _ p 1
              (revision_row 20 "0." "alice" "01 Jan 2014 09:00" "new") E)
    as [Hlen (r & Hr & Hk)]; [vm_compute; reflexivity|].
  assert (length (history p) - 2 = 0) as Hz
    by (rewrite Hlen; vm_compute; reflexivity).
  rewrite Hz in Hk. exists p, r. split; [done|]. split; [done|].
  vm_compute in Hr. by injection Hr as <-.
Defined.

(** X6, on the hub and its two tales. *)
Lemma X6_children_witness :
  ∃ ls, links (page (hubs ["hub"; "tale"]) "a-hub") = Ok ls
        ∧ [Some (at_ "tale-b")] `sublist_of` map Some ls.
Proof.
  set (sn := hubs ["hub"; "tale"]).
  destruct (X6_children_among_links (ext:=ext) sn 1 (page sn "a-hub")
              [page sn "tale-b"])
    as [Hnil|(ls & Hls & Hsub & _)];
    [vm_compute; reflexivity..|discriminate|].
  exists ls. split; [done|]. exact Hsub.
Defined.

(** X11, on a row with the marker. *)
Lemma X11_rewrite_row_witness :
  rewrite_entry rewrite_row = Ok (mkRewriteRow (at_ "scp-173") "bob" true).
Proof.
  destruct (rewrite_entry rewrite_row) as [r|e] eqn:E;
    [|vm_compute in E; discriminate].
  destruct (X11_rewrite_row_round_trip _ r E) as (c0 & c1 & H0 & H1 & Hu & Ha & Ho).
  vm_compute in E. by injection E as <-.
Defined.

(** X13, on a text with two kinds of delimiter. *)
Lemma X13_split_witness :
  Utils.split "a, b;c" [", "; ";"] = ["a"; "b"; "c"]
  ∧ ∃ seps, weave (Utils.split "a, b;c" [", "; ";"]) seps = "a, b;c".
Proof.
  split; [vm_compute; reflexivity|].
  destruct (X13_split_pieces "a, b;c" [", "; ";"]) as (seps & _ & _ & Hw & _).
  - discriminate.
  - repeat constructor; discriminate.
  - by exists seps.
Defined.

(** X14, on the ten pages of the range. *)
Lemma X14_get_all_witness :
  ∃ ps, get_all (ext:=ext) ranged 2 = Ok ps
        ∧ length ps = 10 ∧ NoDup (map url ps).
Proof.
  destruct (get_all (ext:=ext) ranged 2) as [ps|e] eqn:E;
    [|vm_compute in E; discriminate].
  destruct (X14_get_all_every_page_once (ext:=ext) ranged 2 ps E)
    as (Hu & _ & Hnd & _).
  exists ps. split; [done|]. split; [|done].
  apply (f_equal length) in Hu. rewrite !length_map in Hu. rewrite Hu.
  vm_compute. reflexivity.
Defined.

(** X15, on a content region of five anchors. *)
Lemma X15_links_witness :
  ∃ ls, links (linked ["/foo"; "http://x.org/y"; "/pic.png"; "/foo"; "/bar|"])
        = Ok ls ∧ NoDup ls.
Proof.
  eexists. split; [vm_compute; reflexivity|].
  eapply (X15_links_distinct_under_site
            (linked ["/foo"; "http://x.org/y"; "/pic.png"; "/foo"; "/bar|"])).
  vm_compute. reflexivity.
Defined.

(** X16, on two votes. *)
Lemma X16_votes_witness :
  ∃ p, _parse_votes (blank None) votes_markup = Ok p
       ∧ length (votes p) = 2 ∧ v_user <$> votes p !! 0 = Some "alice".
Proof.
  destruct (_parse_votes (blank None) votes_markup) as [p|e] eqn:E;
    [|vm_compute in E; discriminate].
  destruct (X16_votes_follow_user_spans (blank None) votes_markup p 0
              (Elem 1 "span" (cl "printuser") [Text "alice"]) E)
    as [Hlen (r & Hr & Hu & _)]; [vm_compute; reflexivity|].
  exists p. split; [done|]. split; [rewrite Hlen; vm_compute; reflexivity|].
  rewrite Hr. simpl. by rewrite Hu.
Defined.

(** X17, on an article with a supplement and a tale behind its links. *)
Lemma X17_scp_children_witness :
  urls (children (ext:=ext) supplemented 1 (page supplemented "scp-100"))
  = Ok [Some (at_ "supplement-a")].
Proof.
  set (sn := supplemented).
  rewrite (X17_scp_children (ext:=ext) sn 1 (page sn "scp-100")
             [page sn "supplement-a"; page sn "tale-a"]);
    vm_compute; reflexivity.
Defined.
